(** * DVroute: a distance-vector router with poison reverse

    A shallow embedding of [DVroute.py] (class [Router]) and the properties
    of its routing-table engine: the relaxation rule of [__updatertrTable],
    the poisoned vectors of [__sendRtrTable], the link events [__linkChange]
    and [__linkDown], and the change detection and clamping of [__showrt].

    The three threads of the program (timer, command reader, receive loop)
    are modelled as atomic operations on one [Router] state; their
    interleaving inside an operation is not modelled. *)

From Stdlib Require Import ZArith List String Ascii Bool Lia.
From Stdlib Require Import DecimalString DecimalZ.
Import ListNotations.

Local Open Scope string_scope.
Local Open Scope Z_scope.

Set Implicit Arguments.

(** ** Keys with decidable equality *)

Class EqDec (K : Type) := eq_dec : forall x y : K, {x = y} + {x <> y}.

#[export] Instance string_EqDec : EqDec string := string_dec.
#[export] Instance Z_EqDec : EqDec Z := Z.eq_dec.

#[export] Instance prod_EqDec {A B} `{EqDec A} `{EqDec B} : EqDec (A * B).
Proof.
  intros [a b] [a' b'].
  destruct (eq_dec a a') as [->|Ha]; [destruct (eq_dec b b') as [->|Hb]|].
  - left; reflexivity.
  - right; intros E; apply Hb; congruence.
  - right; intros E; apply Ha; congruence.
Defined.

(** ** Python dictionaries

    A [dict] keeps its items in insertion order; [str] and iteration follow
    that order, so the model is an association list.  [dset] on a present
    key replaces the value where it stands, on a new key it appends. *)

Module Dict.
Section Ops.
Context {K V : Type} `{EqDec K}.

Definition dict := list (K * V).

Fixpoint dget (k : K) (d : dict) : option V :=
  match d with
  | [] => None
  | (k', v) :: d' => if eq_dec k k' then Some v else dget k d'
  end.

Definition contains (k : K) (d : dict) : bool :=
  match dget k d with Some _ => true | None => false end.

Fixpoint dset (k : K) (v : V) (d : dict) : dict :=
  match d with
  | [] => [(k, v)]
  | (k', v') :: d' =>
      if eq_dec k k' then (k', v) :: d' else (k', v') :: dset k v d'
  end.

Fixpoint dpop (k : K) (d : dict) : dict :=
  match d with
  | [] => []
  | (k', v') :: d' =>
      if eq_dec k k' then dpop k d' else (k', v') :: dpop k d'
  end.

Definition keys (d : dict) : list K := map fst d.
End Ops.
Arguments dict : clear implicits.
End Dict.
Import Dict.

(** ** Data model *)

Abbreviation NodeName := string (only parsing).
Abbreviation Addr := (string * Z)%type (only parsing).

(** [self.__rtrTable[dest]]: the inner dictionary is always built as
    [{}], then ['nextHop'], then ['cost'], so its key order is fixed. *)
Record Entry := mkEntry { nextHop : NodeName; cost : Z }.

(** [self.__neighbor[rName]]: [{'addr': ..., 'cost': ...}]. *)
Record Neighbor := mkNeighbor { nb_addr : Addr; nb_cost : Z }.

Definition RtrTable := dict NodeName Entry.

Record Router := mkRouter {
  addr : Addr;
  neighbor : dict NodeName Neighbor;
  addr2rName : dict Addr NodeName;
  MaxHop : Z;
  name : NodeName;
  rName2addr : dict NodeName Addr;
  rtrTable : RtrTable;
  neighCost : dict NodeName Z;
  rtrTable_history : option RtrTable;
  convergedPrintTimes : Z;
  PoisonReverse : bool
}.

Definition linkChangeFlag : ascii := "*"%char.
Definition linkDownFlag : ascii := "#"%char.

Definition set_rtrTable (t : RtrTable) (s : Router) : Router :=
  mkRouter (addr s) (neighbor s) (addr2rName s) (MaxHop s) (name s)
    (rName2addr s) t (neighCost s) (rtrTable_history s)
    (convergedPrintTimes s) (PoisonReverse s).

Definition set_neighbor (n : dict NodeName Neighbor) (s : Router) : Router :=
  mkRouter (addr s) n (addr2rName s) (MaxHop s) (name s)
    (rName2addr s) (rtrTable s) (neighCost s) (rtrTable_history s)
    (convergedPrintTimes s) (PoisonReverse s).

Definition set_neighCost (c : dict NodeName Z) (s : Router) : Router :=
  mkRouter (addr s) (neighbor s) (addr2rName s) (MaxHop s) (name s)
    (rName2addr s) (rtrTable s) c (rtrTable_history s)
    (convergedPrintTimes s) (PoisonReverse s).

Definition set_history (h : option RtrTable) (s : Router) : Router :=
  mkRouter (addr s) (neighbor s) (addr2rName s) (MaxHop s) (name s)
    (rName2addr s) (rtrTable s) (neighCost s) h
    (convergedPrintTimes s) (PoisonReverse s).

Definition set_convergedPrintTimes (n : Z) (s : Router) : Router :=
  mkRouter (addr s) (neighbor s) (addr2rName s) (MaxHop s) (name s)
    (rName2addr s) (rtrTable s) (neighCost s) (rtrTable_history s)
    n (PoisonReverse s).

Definition set_PoisonReverse (b : bool) (s : Router) : Router :=
  mkRouter (addr s) (neighbor s) (addr2rName s) (MaxHop s) (name s)
    (rName2addr s) (rtrTable s) (neighCost s) (rtrTable_history s)
    (convergedPrintTimes s) b.

(** ** [str] of the routing table

    [__showrt] compares [str(self.__rtrTable)] with
    [str(self.__rtrTable_history)].  [str] of a dictionary lists the items
    in insertion order, keys and string values through [repr], integers in
    decimal.  Node names are taken over printable ASCII, where [repr]
    escapes only the backslash and the quote it chose. *)

Module PyStr.

Definition squote : ascii := "039"%char.
Definition dquote : ascii := "034"%char.
Definition backslash : ascii := "092"%char.

Fixpoint mem (c : ascii) (s : string) : bool :=
  match s with
  | EmptyString => false
  | String c' s' => if Ascii.eqb c c' then true else mem c s'
  end.

(** [repr] picks double quotes only for a string that holds a single quote
    and no double quote. *)
Definition quote_of (s : string) : ascii :=
  if mem squote s && negb (mem dquote s) then dquote else squote.

Fixpoint escape (q : ascii) (s : string) : string :=
  match s with
  | EmptyString => EmptyString
  | String c s' =>
      if Ascii.eqb c backslash || Ascii.eqb c q
      then String backslash (String c (escape q s'))
      else String c (escape q s')
  end.

Definition repr (s : string) : string :=
  let q := quote_of s in
  String q (escape q s ++ String q EmptyString).

Definition str_int (z : Z) : string := NilEmpty.string_of_int (Z.to_int z).

Definition str_entry (e : Entry) : string :=
  "{'nextHop': " ++ repr (nextHop e) ++ ", 'cost': " ++ str_int (cost e) ++ "}".

Definition str_item (x : NodeName * Entry) : string :=
  repr (fst x) ++ ": " ++ str_entry (snd x).

Fixpoint str_more (t : RtrTable) : string :=
  match t with
  | [] => EmptyString
  | x :: t' => ", " ++ str_item x ++ str_more t'
  end.

Definition str_table (t : RtrTable) : string :=
  match t with
  | [] => "{}"
  | x :: t' => "{" ++ str_item x ++ str_more t' ++ "}"
  end.

(** [str(None)] is ['None']. *)
Definition str_history (h : option RtrTable) : string :=
  match h with
  | None => "None"
  | Some t => str_table t
  end.

End PyStr.

(** ** Exceptions, output and the state monad of the engine *)

Inductive exn :=
| KeyError
| IndexError
| ValueError
| JSONDecodeError
| ConnectionError.

Inductive result (A : Type) :=
| Val (a : A)
| Exc (e : exn).
Arguments Val {A} a.
Arguments Exc {A} e.

(** A cell of the printed table, and what goes out on the socket:
    [Json v] stands for [json.dumps(v).encode()], [Text s] for
    [s.encode()]. *)
Inductive cell :=
| CStr (s : string)
| CInt (z : Z).

Inductive payload :=
| Json (v : RtrTable)
| Text (s : string).

Inductive event :=
| PrintLine (line : string)
| PrintTable (rows : list (list cell))
| PrintExn (e : exn)
| SendTo (data : payload) (to : Addr).

(** A method of [Router]: it reads and writes the object, may raise, and
    prints or sends.  An exception carries the state it leaves behind. *)
Definition M (A : Type) := Router -> result A * Router * list event.

Definition ret {A} (a : A) : M A := fun s => (Val a, s, []).

Definition bind {A B} (m : M A) (f : A -> M B) : M B :=
  fun s =>
    match m s with
    | (Val a, s1, o1) =>
        match f a s1 with
        | (r, s2, o2) => (r, s2, (o1 ++ o2)%list)
        end
    | (Exc e, s1, o1) => (Exc e, s1, o1)
    end.

Definition raise {A} (e : exn) : M A := fun s => (Exc e, s, []).
Definition get : M Router := fun s => (Val s, s, []).
Definition modify (f : Router -> Router) : M unit := fun s => (Val tt, f s, []).
Definition emit (ev : event) : M unit := fun s => (Val tt, s, [ev]).

(** [try: m except: h] *)
Definition catch {A} (m : M A) (h : exn -> M A) : M A :=
  fun s =>
    match m s with
    | (Val a, s1, o1) => (Val a, s1, o1)
    | (Exc e, s1, o1) =>
        match h e s1 with
        | (r, s2, o2) => (r, s2, (o1 ++ o2)%list)
        end
    end.

Declare Scope monad_scope.
Delimit Scope monad_scope with monad.
Notation "x <- c1 ;; c2" := (bind c1 (fun x => c2))
  (at level 100, c1 at next level, right associativity) : monad_scope.
Notation "c1 ;; c2" := (bind c1 (fun _ => c2))
  (at level 100, right associativity) : monad_scope.
Local Open Scope monad_scope.

(** [d[k]] for reading: [KeyError] on a missing key. *)
Definition lookup {K V} `{EqDec K} (d : dict K V) (k : K) : M V :=
  match dget k d with
  | Some v => ret v
  | None => raise KeyError
  end.

Fixpoint for_each {A} (l : list A) (body : A -> M unit) : M unit :=
  match l with
  | [] => ret tt
  | x :: l' => body x ;; for_each l' body
  end.

Definition result_of {A} (x : result A * Router * list event) : result A :=
  fst (fst x).
Definition state_of {A} (x : result A * Router * list event) : Router :=
  snd (fst x).
Definition output_of {A} (x : result A * Router * list event) : list event :=
  snd x.

(** ** [Router.__init__] *)

Definition init_rName2addr (a2n : dict Addr NodeName) : dict NodeName Addr :=
  fold_left
    (fun acc a => match dget a a2n with
                  | Some n => dset n a acc
                  | None => acc
                  end)
    (keys a2n) [].

Definition init_rtrTable (nb : dict NodeName Neighbor) : RtrTable :=
  fold_left
    (fun acc dest => match dget dest nb with
                     | Some n => dset dest (mkEntry dest (nb_cost n)) acc
                     | None => acc
                     end)
    (keys nb) [].

Definition init_neighCost (nb : dict NodeName Neighbor) : dict NodeName Z :=
  fold_left
    (fun acc nh => match dget nh nb with
                   | Some n => dset nh (nb_cost n) acc
                   | None => acc
                   end)
    (keys nb) [].

(** [Router(router_address, neighbor, addr2rName, MaxHop)]; the lookup of the
    router's own name raises [KeyError] for an unlisted address. *)
Definition init (router_address : Addr) (nb : dict NodeName Neighbor)
    (a2n : dict Addr NodeName) (maxHop : Z) : result Router :=
  match dget router_address a2n with
  | None => Exc KeyError
  | Some nm =>
      Val (mkRouter router_address nb a2n maxHop nm (init_rName2addr a2n)
             (init_rtrTable nb) (init_neighCost nb) None 0 true)
  end.

(** ** [__showrt] *)

(** [self.__rtrTable[dest]['cost'] = c]: the key [dest] is present wherever
    the program does this, so the missing case never runs. *)
Definition set_cost (dest : NodeName) (c : Z) (t : RtrTable) : RtrTable :=
  match dget dest t with
  | Some e => dset dest (mkEntry (nextHop e) c) t
  | None => t
  end.

Definition clamp_cost (maxHop : Z) (dest : NodeName) (t : RtrTable) : RtrTable :=
  match dget dest t with
  | Some e => if cost e >? maxHop then set_cost dest (maxHop + 1) t else t
  | None => t
  end.

Definition row (maxHop : Z) (dest : NodeName) (t : RtrTable) : list cell :=
  match dget dest t with
  | Some e =>
      [CStr dest;
       if cost e <=? maxHop then CStr (nextHop e) else CStr " ";
       if cost e <=? maxHop then CInt (cost e) else CStr "inf"]
  | None => []
  end.

(** The loop [for dest in self.__rtrTable] of both printing branches: clamp
    the stored cost, then add the row. *)
Fixpoint report_rows (maxHop : Z) (dests : list NodeName) (t : RtrTable)
  : RtrTable * list (list cell) :=
  match dests with
  | [] => (t, [])
  | dest :: dests' =>
      let t1 := clamp_cost maxHop dest t in
      let '(t2, rows) := report_rows maxHop dests' t1 in
      (t2, row maxHop dest t1 :: rows)
  end.

Definition report_table : M (list (list cell)) :=
  s <- get ;;
  let '(t, rows) := report_rows (MaxHop s) (keys (rtrTable s)) (rtrTable s) in
  modify (set_rtrTable t) ;;
  ret rows.

(** [str(self.__rtrTable) != str(self.__rtrTable_history)] *)
Definition table_changed (s : Router) : bool :=
  negb (String.eqb (PyStr.str_table (rtrTable s))
                   (PyStr.str_history (rtrTable_history s))).

Definition showrt : M unit :=
  s <- get ;;
  if table_changed s then
    emit (PrintLine "Distance vector list is:") ;;
    rows <- report_table ;;
    emit (PrintTable rows) ;;
    modify (fun s => set_history (Some (rtrTable s)) s) ;;
    modify (set_convergedPrintTimes 0)
  else if convergedPrintTimes s =? 0 then
    emit (PrintLine "The network has converged:") ;;
    rows <- report_table ;;
    emit (PrintTable rows) ;;
    modify (set_convergedPrintTimes 1)
  else ret tt.

(** ** [__sendRtrTable] *)

Definition poison (maxHop : Z) (target : NodeName) (table : RtrTable)
    (rtrtable : RtrTable) (dest : NodeName) : RtrTable :=
  match dget dest table with
  | Some e =>
      if negb (String.eqb dest target) && String.eqb (nextHop e) target
      then set_cost dest (maxHop + 1) rtrtable
      else rtrtable
  | None => rtrtable
  end.

(** The vector built for the neighbour [target]: a copy of the table,
    poisoned when poison reverse is on. *)
Definition vectorFor (s : Router) (target : NodeName) : RtrTable :=
  let rtrtable := rtrTable s in
  if PoisonReverse s
  then fold_left (poison (MaxHop s) target (rtrTable s)) (keys (rtrTable s)) rtrtable
  else rtrtable.

Definition sendRtrTable : M unit :=
  s <- get ;;
  for_each (keys (neighbor s)) (fun nextHop =>
    let data := Json (vectorFor s nextHop) in
    a <- lookup (rName2addr s) nextHop ;;
    emit (SendTo data a)).

Definition updateTimer : M unit :=
  showrt ;; sendRtrTable.

(** ** [__updatertrTable] *)

Definition set_nextHop (dest : NodeName) (nh : NodeName) (t : RtrTable) : RtrTable :=
  match dget dest t with
  | Some e => dset dest (mkEntry nh (cost e)) t
  | None => t
  end.

Definition update_table (f : RtrTable -> RtrTable) : M unit :=
  modify (fun s => set_rtrTable (f (rtrTable s)) s).

(** One round of the loop [for dest in rtrtable].  For a new destination
    the program first stores [{}] and the next hop and only then looks up
    the sender's link cost; when that lookup raises, the exception leaves
    the receive loop and ends the process, so the half-built entry is never
    read and is not modelled. *)
Definition relax_dest (From : NodeName) (rtrtable : RtrTable) (dest : NodeName)
  : M unit :=
  s <- get ;;
  if String.eqb dest (name s) then ret tt
  else
    match dget dest (rtrTable s) with
    | None =>
        c <- lookup (neighCost s) From ;;
        adv <- lookup rtrtable dest ;;
        update_table
          (dset dest (mkEntry From (Z.min (c + cost adv) (MaxHop s + 1))))
    | Some e =>
        if String.eqb (nextHop e) From then
          c <- lookup (neighCost s) From ;;
          adv <- lookup rtrtable dest ;;
          update_table (set_cost dest (Z.min (c + cost adv) (MaxHop s + 1)))
        else
          c <- lookup (neighCost s) From ;;
          adv <- lookup rtrtable dest ;;
          if c + cost adv <? cost e then
            update_table (set_cost dest (Z.min (c + cost adv) (MaxHop s + 1))) ;;
            update_table (set_nextHop dest From)
          else ret tt
    end.

Definition updatertrTable (a : Addr) (rtrtable : RtrTable) : M unit :=
  s <- get ;;
  From <- lookup (addr2rName s) a ;;
  for_each (keys rtrtable) (relax_dest From rtrtable).

(** ** [__linkChange], [__linkDown], [setPoisonReverse] *)

Definition linkChange (a : Addr) (dist : Z) (needSend : bool) : M unit :=
  s <- get ;;
  rName <- lookup (addr2rName s) a ;;
  modify (fun s => set_neighbor (dset rName (mkNeighbor a dist) (neighbor s)) s) ;;
  modify (fun s => set_neighCost (dset rName dist (neighCost s)) s) ;;
  update_table (dset rName (mkEntry rName dist)) ;;
  modify (set_convergedPrintTimes 0) ;;
  modify (set_history None) ;;
  if needSend
  then emit (SendTo (Text (String linkChangeFlag (PyStr.str_int dist))) a)
  else ret tt.

(** [d.pop(k)]: [KeyError] on a missing key. *)
Definition pop_neighbor (rName : NodeName) : M unit :=
  s <- get ;;
  if contains rName (neighbor s)
  then modify (set_neighbor (dpop rName (neighbor s)))
  else raise KeyError.

Definition pop_neighCost (rName : NodeName) : M unit :=
  s <- get ;;
  if contains rName (neighCost s)
  then modify (set_neighCost (dpop rName (neighCost s)))
  else raise KeyError.

Definition linkDown (a : Addr) (needSend : bool) : M unit :=
  s <- get ;;
  rName <- lookup (addr2rName s) a ;;
  pop_neighbor rName ;;
  pop_neighCost rName ;;
  update_table (dset rName (mkEntry rName (MaxHop s + 1))) ;;
  modify (set_convergedPrintTimes 0) ;;
  modify (set_history None) ;;
  if needSend
  then emit (SendTo (Text (String linkDownFlag EmptyString)) a)
  else ret tt.

Definition setPoisonReverse (openState : bool) : M unit :=
  modify (set_PoisonReverse openState).

(** ** The receive loop and the command loop

    [json.loads] and [int] belong to Python, not to the program: they are
    parameters.  [json_loads data = None] stands for a payload that
    [json.loads] rejects ([JSONDecodeError]), [py_int x = None] for
    [ValueError]. *)

Inductive arrival :=
| Datagram (data : string) (from : Addr)
| Reset.

Section Loops.
Variable json_loads : string -> option RtrTable.
Variable py_int : string -> option Z.

Definition to_int (x : string) : M Z :=
  match py_int x with
  | Some z => ret z
  | None => raise ValueError
  end.

(** The body of [try] in [__recvRtrTable]; [Reset] is [recvfrom] raising
    [ConnectionError]. *)
Definition recv_body (x : arrival) : M unit :=
  match x with
  | Reset => raise ConnectionError
  | Datagram data a =>
      match data with
      | EmptyString => raise IndexError
      | String c rest =>
          if Ascii.eqb c linkChangeFlag then
            dist <- to_int rest ;;
            linkChange a dist false
          else if Ascii.eqb c linkDownFlag then
            linkDown a false
          else
            match json_loads data with
            | Some v => updatertrTable a v
            | None => raise JSONDecodeError
            end
      end
  end.

(** [except ConnectionError as e: print(e)]: any other exception leaves the
    loop. *)
Definition recv_handler (e : exn) : M unit :=
  match e with
  | ConnectionError => emit (PrintExn e)
  | _ => raise e
  end.

(** [while True] over the datagrams that arrive; the list is the finite
    part of the traffic under study. *)
Fixpoint recvRtrTable (arrivals : list arrival) : M unit :=
  match arrivals with
  | [] => ret tt
  | x :: rest => catch (recv_body x) recv_handler ;; recvRtrTable rest
  end.

Definition token (order : list string) (i : nat) : M string :=
  match nth_error order i with
  | Some x => ret x
  | None => raise IndexError
  end.

(** The body of [try] in [__parseUserInput], on [order = input().split()]. *)
Definition command (order : list string) : M unit :=
  c <- token order 0 ;;
  if String.eqb c "linkchange" then
    ip <- token order 1 ;;
    p <- token order 2 ;;
    port <- to_int p ;;
    d <- token order 3 ;;
    dist <- to_int d ;;
    linkChange (ip, port) dist true
  else if String.eqb c "linkdown" then
    ip <- token order 1 ;;
    p <- token order 2 ;;
    port <- to_int p ;;
    linkDown (ip, port) true
  else emit (PrintLine "InputError").

(** [except: print("InputError")] *)
Fixpoint parseUserInput (lines : list (list string)) : M unit :=
  match lines with
  | [] => ret tt
  | order :: rest =>
      catch (command order) (fun _ => emit (PrintLine "InputError")) ;;
      parseUserInput rest
  end.

End Loops.

(** ** Runs of the engine

    The operations the three activities perform on the router, in any
    order.  A run goes on from the state an exception leaves behind, as the
    command loop does; after an exception of the receive loop the process
    ends, so this only adds states. *)

Inductive op :=
| Showrt
| SendRtrTable
| UpdatertrTable (a : Addr) (rtrtable : RtrTable)
| LinkChange (a : Addr) (dist : Z) (needSend : bool)
| LinkDown (a : Addr) (needSend : bool)
| SetPoisonReverse (openState : bool).

Definition exec (o : op) : M unit :=
  match o with
  | Showrt => showrt
  | SendRtrTable => sendRtrTable
  | UpdatertrTable a v => updatertrTable a v
  | LinkChange a dist needSend => linkChange a dist needSend
  | LinkDown a needSend => linkDown a needSend
  | SetPoisonReverse b => setPoisonReverse b
  end.

Definition run (ops : list op) (s : Router) : Router :=
  fold_left (fun s o => state_of (exec o s)) ops s.

(** ** A sample network: the address table of the program *)

Definition addrA : Addr := ("192.168.126.65", 20000).
Definition addrB : Addr := ("192.168.126.66", 20000).
Definition addrC : Addr := ("192.168.126.67", 20000).
Definition addrD : Addr := ("192.168.126.68", 20000).
Definition addrE : Addr := ("192.168.126.69", 20000).

Definition addr2rName_global : dict Addr NodeName :=
  [(addrA, "A"); (addrB, "B"); (addrC, "C"); (addrD, "D"); (addrE, "E")].

(** Router [E] with neighbours [A] (cost 2) and [B] (cost 5). *)
Definition sample_neighbor : dict NodeName Neighbor :=
  [("A", mkNeighbor addrA 2); ("B", mkNeighbor addrB 5)].

Definition sample_router : Router :=
  mkRouter addrE sample_neighbor addr2rName_global 15 "E"
    [("A", addrA); ("B", addrB); ("C", addrC); ("D", addrD); ("E", addrE)]
    [("A", mkEntry "A" 2); ("B", mkEntry "B" 5)]
    [("A", 2); ("B", 5)] None 0 true.

(** ** Start-up: [parse_argv] and [main]

    [parse_argv] reads [sys.argv[1:]]: the listening port, then triples
    [ip port dist], one per neighbour, looked up in the address table of the
    module.  It touches no router, so it is a function into [result]. *)

Definition rbind {A B} (r : result A) (f : A -> result B) : result B :=
  match r with
  | Val a => f a
  | Exc e => Exc e
  end.

Notation "x <~ c1 ;; c2" := (rbind c1 (fun x => c2))
  (at level 100, c1 at next level, right associativity) : monad_scope.

Section Startup.
Variable py_int : string -> option Z.

Definition int_of (x : string) : result Z :=
  match py_int x with
  | Some z => Val z
  | None => Exc ValueError
  end.

(** [s[i]] on a list *)
Definition item (s : list string) (i : nat) : result string :=
  match nth_error s i with
  | Some x => Val x
  | None => Exc IndexError
  end.

(** One round of [for i in range(len(s) // 3)]. *)
Definition parse_neighbor (s : list string) (nb : dict NodeName Neighbor)
    (i : nat) : result (dict NodeName Neighbor) :=
  ip <~ item s (i * 3) ;;
  p <~ item s (i * 3 + 1) ;;
  port <~ int_of p ;;
  match dget (ip, port) addr2rName_global with
  | None => Exc KeyError
  | Some rName =>
      d <~ item s (i * 3 + 2) ;;
      dist <~ int_of d ;;
      Val (dset rName (mkNeighbor (ip, port) dist) nb)
  end.

Fixpoint parse_neighbors (s : list string) (nb : dict NodeName Neighbor)
    (rounds : list nat) : result (dict NodeName Neighbor) :=
  match rounds with
  | [] => Val nb
  | i :: rounds' =>
      nb' <~ parse_neighbor s nb i ;;
      parse_neighbors s nb' rounds'
  end.

(** The result is the pair of [parsed['listening_port']] and
    [parsed['neighbor']]; [s.pop(0)] raises [IndexError] on no argument. *)
Definition parse_argv (argv : list string)
  : result (Z * dict NodeName Neighbor) :=
  match argv with
  | [] => Exc IndexError
  | listening_port :: s =>
      port <~ int_of listening_port ;;
      nb <~ parse_neighbors s [] (seq 0 (List.length s / 3)) ;;
      Val (port, nb)
  end.


End Startup.

(** * The vocabulary of the properties *)

Unset Implicit Arguments.

(** ** The relaxation rule, as a function of the table *)

(** What one round of the loop of [__updatertrTable] does to the table,
    once the lookups of the sender's link cost [c] and of the advertised
    entry have gone through. *)
Definition relax_table (self From : NodeName) (c maxHop : Z) (v : RtrTable)
    (t : RtrTable) (dest : NodeName) : RtrTable :=
  match dget dest v with
  | None => t
  | Some adv =>
      if String.eqb dest self then t
      else
        match dget dest t with
        | None => dset dest (mkEntry From (Z.min (c + cost adv) (maxHop + 1))) t
        | Some e =>
            if String.eqb (nextHop e) From
            then set_cost dest (Z.min (c + cost adv) (maxHop + 1)) t
            else if c + cost adv <? cost e
            then set_nextHop dest From
                   (set_cost dest (Z.min (c + cost adv) (maxHop + 1)) t)
            else t
        end
  end.

(** The same round, seen from the entry of [dest] alone. *)
Definition relax_entry (self From : NodeName) (c maxHop : Z) (v : RtrTable)
    (dest : NodeName) (old : option Entry) : option Entry :=
  match dget dest v with
  | None => old
  | Some adv =>
      if String.eqb dest self then old
      else
        match old with
        | None => Some (mkEntry From (Z.min (c + cost adv) (maxHop + 1)))
        | Some e =>
            if String.eqb (nextHop e) From
            then Some (mkEntry (nextHop e) (Z.min (c + cost adv) (maxHop + 1)))
            else if c + cost adv <? cost e
            then Some (mkEntry From (Z.min (c + cost adv) (maxHop + 1)))
            else Some e
        end
  end.

(** ** Poison reverse, entry by entry *)

(** What the neighbour [target] is told about an entry of the table. *)
Definition advertised (maxHop : Z) (target : NodeName) (dest : NodeName)
    (e : Entry) : Entry :=
  if negb (String.eqb dest target) && String.eqb (nextHop e) target
  then mkEntry (nextHop e) (maxHop + 1)
  else e.

(** The copy under construction: each entry still as in the table, or
    already as advertised. *)
Definition partly_poisoned (maxHop : Z) (target : NodeName) (table : RtrTable)
    (rtrtable : RtrTable) : Prop :=
  forall d, dget d rtrtable = dget d table \/
            dget d rtrtable = option_map (advertised maxHop target d) (dget d table).

(** ** The report *)

Definition clamped (maxHop : Z) (t : RtrTable) : RtrTable :=
  fst (report_rows maxHop (keys t) t).

Definition rows_of (maxHop : Z) (t : RtrTable) : list (list cell) :=
  snd (report_rows maxHop (keys t) t).

Definition clamp_entry (maxHop : Z) (e : Entry) : Entry :=
  if cost e >? maxHop then mkEntry (nextHop e) (maxHop + 1) else e.

(** ** Ranges and invariants *)

(** Every value stored in a dictionary satisfies [Q]. *)
Definition all_values {K V : Type} (Q : V -> Prop) (d : dict K V) : Prop :=
  Forall (fun x => Q (snd x)) d.

Definition cost_in_range (maxHop : Z) (e : Entry) : Prop :=
  0 <= cost e <= maxHop + 1.

(** The inputs that respect the range: a link cost within
    [[0, MaxHop + 1]], a vector of non-negative costs. *)
Definition op_in_range (maxHop : Z) (o : op) : Prop :=
  match o with
  | LinkChange _ dist _ => 0 <= dist <= maxHop + 1
  | UpdatertrTable _ v => all_values (fun e => 0 <= cost e) v
  | _ => True
  end.

Definition range_inv (maxHop : Z) (s : Router) : Prop :=
  MaxHop s = maxHop /\
  all_values (cost_in_range maxHop) (rtrTable s) /\
  all_values (fun c => 0 <= c) (neighCost s).

Definition snapshot_inv (s : Router) : Prop :=
  NoDup (keys (rtrTable s)) /\
  match rtrTable_history s with
  | None => True
  | Some h =>
      (exists rest, keys (rtrTable s) = (keys h ++ rest)%list) /\
      (forall d e, dget d h = Some e -> cost e <= MaxHop s + 1)
  end.

(** ** Tables as sets of triples *)

Definition triple (x : string * Entry) : string * string * Z :=
  (fst x, nextHop (snd x), cost (snd x)).

Definition triples (t : RtrTable) : list (string * string * Z) := map triple t.

Definition same_triples (t h : RtrTable) : Prop :=
  forall x, In x (triples t) <-> In x (triples h).

(** ** Sample routers *)

(** A router whose table equals its last snapshot: after a link change that
    writes the same entry again, the report is printed once more. *)
Definition settled_router : Router :=
  state_of (showrt sample_router).

(** A router that has been told of a link to its own address counts
    itself among its neighbours, and hears its own vectors. *)
Definition self_linked_router : Router :=
  run [LinkChange addrE 3 true] sample_router.

(** A link to [C] of cost 17, above [MaxHop + 1], entered as a command and
    not yet reported. *)
Definition far_link_router : Router :=
  run [LinkChange addrC 17 true] sample_router.

(** Router [E] after learning [C] and [D] through [A]: the vector for [A]
    poisons [C] and [D] and tells [A] its own cost. *)
Definition learned_router : Router :=
  run [UpdatertrTable addrA [("C", mkEntry "C" 3); ("D", mkEntry "C" 6)]]
      sample_router.

(** ** Neighbours along a run *)

(** The two neighbour dictionaries agree, every neighbour has a routing
    entry, and every neighbour's name resolves to an address. *)
Definition neighbours_inv (s : Router) : Prop :=
  (forall n, dget n (neighCost s) = option_map nb_cost (dget n (neighbor s))) /\
  (forall n, In n (keys (neighbor s)) -> In n (keys (rtrTable s))).

Definition resolvable (s : Router) : Prop :=
  forall n, In n (keys (neighbor s)) -> In n (keys (rName2addr s)).


(** The row [__showrt] prints for an entry, after the clamp. *)
Definition printed_row (maxHop : Z) (dest : NodeName) (e : Entry) : list cell :=
  if cost e >? maxHop
  then [CStr dest; CStr " "; CStr "inf"]
  else [CStr dest; CStr (nextHop e); CInt (cost e)].

(** What [__sendRtrTable] sends for the neighbour [n], when its name has
    an address. *)
Definition datagram_for (s : Router) (n : NodeName) : list event :=
  match dget n (rName2addr s) with
  | Some a => [SendTo (Json (vectorFor s n)) a]
  | None => []
  end.


(** * Properties *)

(** ** The samples *)

Example str_table_sample :
  PyStr.str_table [("B", mkEntry "B" 2); ("C", mkEntry "B" 10)]
  = "{'B': {'nextHop': 'B', 'cost': 2}, 'C': {'nextHop': 'B', 'cost': 10}}".
Proof. reflexivity. Qed.

Example str_int_samples :
  PyStr.str_int 0 = "0" /\ PyStr.str_int (-7) = "-7" /\ PyStr.str_int 16 = "16".
Proof. repeat split. Qed.

Example init_sample :
  init addrE sample_neighbor addr2rName_global 15 = Val sample_router.
Proof. reflexivity. Qed.

(** The scenario of the relaxation rule: [A] advertises [C] at 3, then [B]
    advertises [C] at 1, then [A] advertises [C] at 20. *)
Example scenario_relaxation :
  let s1 := run [UpdatertrTable addrA [("C", mkEntry "C" 3)]] sample_router in
  let s2 := run [UpdatertrTable addrB [("C", mkEntry "C" 1)]] s1 in
  let s3 := run [UpdatertrTable addrA [("C", mkEntry "D" 20)]] s2 in
  dget "C" (rtrTable s1) = Some (mkEntry "A" 5) /\
  dget "C" (rtrTable s2) = Some (mkEntry "A" 5) /\
  dget "C" (rtrTable s3) = Some (mkEntry "A" 16).
Proof. vm_compute. repeat split. Qed.

Ltac unfold_monad :=
  cbv [bind ret raise get modify emit catch lookup update_table
       result_of state_of output_of].

(** ** Dictionaries *)

Section DictFacts.
Context {K V : Type} `{EqDec K}.
Implicit Types (d : dict K V) (k : K) (v : V).

Lemma dget_dset_eq k v d : dget k (dset k v d) = Some v.
Proof.
  induction d as [|[k' v'] d IH]; simpl.
  - destruct (eq_dec k k); congruence.
  - destruct (eq_dec k k') as [->|N]; simpl.
    + destruct (eq_dec k' k'); congruence.
    + destruct (eq_dec k k'); congruence.
Qed.

Lemma dget_dset_neq k k' v d : k <> k' -> dget k' (dset k v d) = dget k' d.
Proof.
  intros N. induction d as [|[k0 v0] d IH]; simpl.
  - destruct (eq_dec k' k); congruence.
  - destruct (eq_dec k k0) as [->|N0]; simpl.
    + destruct (eq_dec k' k0); congruence.
    + destruct (eq_dec k' k0); congruence.
Qed.

Lemma dget_dpop_eq k d : dget k (dpop k d) = None.
Proof.
  induction d as [|[k0 v0] d IH]; simpl; [reflexivity|].
  destruct (eq_dec k k0) as [->|N0]; simpl; [assumption|].
  destruct (eq_dec k k0); congruence.
Qed.

Lemma dget_dpop_neq k k' d : k <> k' -> dget k' (dpop k d) = dget k' d.
Proof.
  intros N. induction d as [|[k0 v0] d IH]; simpl; [reflexivity|].
  destruct (eq_dec k k0) as [->|N0]; simpl.
  - destruct (eq_dec k' k0); congruence.
  - destruct (eq_dec k' k0); congruence.
Qed.

Lemma dget_None_keys k d : dget k d = None <-> ~ In k (keys d).
Proof.
  induction d as [|[k0 v0] d IH]; simpl; [tauto|].
  destruct (eq_dec k k0) as [->|N0].
  - split; [discriminate|]. intros N; exfalso; apply N; now left.
  - rewrite IH. split; [intros N [E|I]; [congruence|tauto]|tauto].
Qed.

Lemma dget_Some_keys k v d : dget k d = Some v -> In k (keys d).
Proof.
  intros G. destruct (in_dec eq_dec k (keys d)) as [I|N]; [assumption|].
  apply dget_None_keys in N. congruence.
Qed.

Lemma keys_dget k d : In k (keys d) -> exists v, dget k d = Some v.
Proof.
  intros I. destruct (dget k d) as [v|] eqn:G; [now exists v|].
  apply dget_None_keys in G. contradiction.
Qed.

Lemma dget_In k v d : dget k d = Some v -> In (k, v) d.
Proof.
  induction d as [|[k0 v0] d IH]; simpl; [discriminate|].
  destruct (eq_dec k k0) as [->|N0]; intros G.
  - left; congruence.
  - right; auto.
Qed.

Lemma keys_dset_present k v v0 d :
  dget k d = Some v0 -> keys (dset k v d) = keys d.
Proof.
  induction d as [|[k0 v1] d IH]; simpl; [discriminate|].
  destruct (eq_dec k k0) as [->|N0]; simpl; [reflexivity|].
  intros G. now rewrite (IH G).
Qed.

Lemma keys_dset_absent k v d :
  dget k d = None -> keys (dset k v d) = (keys d ++ [k])%list.
Proof.
  induction d as [|[k0 v1] d IH]; simpl; [reflexivity|].
  destruct (eq_dec k k0) as [->|N0]; simpl; [discriminate|].
  intros G. now rewrite (IH G).
Qed.

(** Writing a key only ever extends the key sequence at its end. *)
Lemma keys_dset_extends k v d :
  exists rest, keys (dset k v d) = (keys d ++ rest)%list.
Proof.
  destruct (dget k d) as [v0|] eqn:G.
  - exists []. erewrite keys_dset_present by eassumption. now rewrite app_nil_r.
  - exists [k]. now apply keys_dset_absent.
Qed.

Lemma NoDup_keys_dset k v d : NoDup (keys d) -> NoDup (keys (dset k v d)).
Proof.
  intros ND. destruct (dget k d) as [v0|] eqn:G.
  - erewrite keys_dset_present by eassumption. assumption.
  - rewrite keys_dset_absent by assumption.
    apply NoDup_app; repeat split; try assumption.
    + repeat constructor. simpl; tauto.
    + intros x I [<-|[]]. apply dget_None_keys in G. contradiction.
Qed.

End DictFacts.

(** ** Field updates of an entry *)

Lemma dget_set_cost_eq dest c t e :
  dget dest t = Some e ->
  dget dest (set_cost dest c t) = Some (mkEntry (nextHop e) c).
Proof. intros G. unfold set_cost. rewrite G. apply dget_dset_eq. Qed.

Lemma dget_set_cost_neq dest d c t :
  dest <> d -> dget d (set_cost dest c t) = dget d t.
Proof.
  intros N. unfold set_cost. destruct (dget dest t); [|reflexivity].
  now apply dget_dset_neq.
Qed.

Lemma keys_set_cost dest c t : keys (set_cost dest c t) = keys t.
Proof.
  unfold set_cost. destruct (dget dest t) as [e|] eqn:G; [|reflexivity].
  eapply keys_dset_present; eassumption.
Qed.

Lemma dget_set_nextHop_eq dest nh t e :
  dget dest t = Some e ->
  dget dest (set_nextHop dest nh t) = Some (mkEntry nh (cost e)).
Proof. intros G. unfold set_nextHop. rewrite G. apply dget_dset_eq. Qed.

Lemma dget_set_nextHop_neq dest d nh t :
  dest <> d -> dget d (set_nextHop dest nh t) = dget d t.
Proof.
  intros N. unfold set_nextHop. destruct (dget dest t); [|reflexivity].
  now apply dget_dset_neq.
Qed.

Lemma keys_set_nextHop dest nh t : keys (set_nextHop dest nh t) = keys t.
Proof.
  unfold set_nextHop. destruct (dget dest t) as [e|] eqn:G; [|reflexivity].
  eapply keys_dset_present; eassumption.
Qed.

(** ** Link events *)

Lemma linkDown_run s a P needSend :
  dget a (addr2rName s) = Some P ->
  contains P (neighbor s) = true ->
  contains P (neighCost s) = true ->
  linkDown a needSend s =
  (Val tt,
   mkRouter (addr s) (dpop P (neighbor s)) (addr2rName s) (MaxHop s) (name s)
     (rName2addr s) (dset P (mkEntry P (MaxHop s + 1)) (rtrTable s))
     (dpop P (neighCost s)) None 0 (PoisonReverse s),
   if needSend then [SendTo (Text (String linkDownFlag EmptyString)) a] else []).
Proof.
  intros Ha Hn Hc.
  unfold linkDown, pop_neighbor, pop_neighCost. unfold_monad.
  rewrite Ha. simpl. rewrite Hn. simpl. rewrite Hc. simpl.
  destruct needSend; reflexivity.
Qed.

Lemma linkChange_run s a P dist needSend :
  dget a (addr2rName s) = Some P ->
  linkChange a dist needSend s =
  (Val tt,
   mkRouter (addr s) (dset P (mkNeighbor a dist) (neighbor s)) (addr2rName s)
     (MaxHop s) (name s) (rName2addr s)
     (dset P (mkEntry P dist) (rtrTable s))
     (dset P dist (neighCost s)) None 0 (PoisonReverse s),
   if needSend
   then [SendTo (Text (String linkChangeFlag (PyStr.str_int dist))) a]
   else []).
Proof.
  intros Ha. unfold linkChange. unfold_monad.
  rewrite Ha. simpl. destruct needSend; reflexivity.
Qed.

Lemma linkChange_unknown s a dist needSend :
  dget a (addr2rName s) = None ->
  linkChange a dist needSend s = (Exc KeyError, s, []).
Proof.
  intros Ha. unfold linkChange. unfold_monad. now rewrite Ha.
Qed.

Lemma linkDown_unknown s a needSend :
  dget a (addr2rName s) = None ->
  linkDown a needSend s = (Exc KeyError, s, []).
Proof.
  intros Ha. unfold linkDown. unfold_monad. now rewrite Ha.
Qed.

(** The only ways [linkDown] ends: done, or [KeyError] with the table, the
    snapshot and the counter untouched. *)
Lemma linkDown_cases s a needSend :
  (exists P, dget a (addr2rName s) = Some P /\
     contains P (neighbor s) = true /\ contains P (neighCost s) = true) \/
  (result_of (linkDown a needSend s) = Exc KeyError /\
   rtrTable (state_of (linkDown a needSend s)) = rtrTable s /\
   rtrTable_history (state_of (linkDown a needSend s)) = rtrTable_history s /\
   neighCost (state_of (linkDown a needSend s)) = neighCost s /\
   MaxHop (state_of (linkDown a needSend s)) = MaxHop s).
Proof.
  destruct (dget a (addr2rName s)) as [P|] eqn:Ha.
  - destruct (contains P (neighbor s)) eqn:Hn.
    + destruct (contains P (neighCost s)) eqn:Hc.
      * left. now exists P.
      * right. unfold linkDown, pop_neighbor, pop_neighCost. unfold_monad.
        rewrite Ha. simpl. rewrite Hn. simpl. rewrite Hc. simpl. auto.
    + right. unfold linkDown, pop_neighbor, pop_neighCost. unfold_monad.
      rewrite Ha. simpl. rewrite Hn. simpl. auto.
  - right. rewrite linkDown_unknown by assumption. simpl. auto.
Qed.

(** C4. After [linkDown] on a current neighbour [P]: no neighbour cost for
    [P], a routing entry for [P] with next hop [P] and cost [MaxHop + 1],
    and every other routing entry as before. *)
Theorem linkDown_leaves_stub s a P needSend :
  dget a (addr2rName s) = Some P ->
  contains P (neighbor s) = true ->
  contains P (neighCost s) = true ->
  let r := linkDown a needSend s in
  result_of r = Val tt /\
  dget P (neighCost (state_of r)) = None /\
  dget P (rtrTable (state_of r)) = Some (mkEntry P (MaxHop s + 1)) /\
  (forall d, d <> P -> dget d (rtrTable (state_of r)) = dget d (rtrTable s)).
Proof.
  intros Ha Hn Hc r. subst r.
  rewrite (linkDown_run s a P needSend Ha Hn Hc). cbn [result_of state_of fst snd].
  cbn [neighCost rtrTable].
  split; [reflexivity|]. split; [apply dget_dpop_eq|].
  split; [apply dget_dset_eq|].
  intros d N. apply dget_dset_neq. congruence.
Qed.

Lemma linkDown_leaves_stub_witness :
  let r := linkDown addrA true sample_router in
  result_of r = Val tt /\
  dget "A" (neighCost (state_of r)) = None /\
  dget "A" (rtrTable (state_of r)) = Some (mkEntry "A" 16) /\
  (forall d, d <> "A" -> dget d (rtrTable (state_of r)) = dget d (rtrTable sample_router)).
Proof.
  apply (linkDown_leaves_stub sample_router addrA "A" true);
    reflexivity.
Defined.

(** ** The report of [__showrt] *)

Lemma showrt_changed s :
  table_changed s = true ->
  showrt s =
  (Val tt,
   mkRouter (addr s) (neighbor s) (addr2rName s) (MaxHop s) (name s)
     (rName2addr s) (clamped (MaxHop s) (rtrTable s)) (neighCost s)
     (Some (clamped (MaxHop s) (rtrTable s))) 0 (PoisonReverse s),
   [PrintLine "Distance vector list is:"; PrintTable (rows_of (MaxHop s) (rtrTable s))]).
Proof.
  intros C. unfold showrt, report_table, clamped, rows_of. unfold_monad.
  rewrite C.
  destruct (report_rows (MaxHop s) (keys (rtrTable s)) (rtrTable s)) as [t rows].
  reflexivity.
Qed.

Lemma showrt_converged s :
  table_changed s = false ->
  convergedPrintTimes s = 0 ->
  showrt s =
  (Val tt,
   mkRouter (addr s) (neighbor s) (addr2rName s) (MaxHop s) (name s)
     (rName2addr s) (clamped (MaxHop s) (rtrTable s)) (neighCost s)
     (rtrTable_history s) 1 (PoisonReverse s),
   [PrintLine "The network has converged:"; PrintTable (rows_of (MaxHop s) (rtrTable s))]).
Proof.
  intros C Z0. unfold showrt, report_table, clamped, rows_of. unfold_monad.
  rewrite C, Z0. change (0 =? 0) with true. cbv beta iota.
  destruct (report_rows (MaxHop s) (keys (rtrTable s)) (rtrTable s)) as [t rows].
  reflexivity.
Qed.

Lemma showrt_silent s :
  table_changed s = false ->
  convergedPrintTimes s <> 0 ->
  showrt s = (Val tt, s, []).
Proof.
  intros C Z0. unfold showrt. unfold_monad. rewrite C.
  apply Z.eqb_neq in Z0. rewrite Z0. reflexivity.
Qed.

Lemma str_table_not_None t :
  String.eqb (PyStr.str_table t) (PyStr.str_history None) = false.
Proof. destruct t; reflexivity. Qed.

Lemma no_history_changed s :
  rtrTable_history s = None -> table_changed s = true.
Proof.
  intros Hh. unfold table_changed. rewrite Hh.
  now rewrite str_table_not_None.
Qed.

(** C8. Once [linkChange] or [linkDown] has gone through, the next
    [__showrt] takes the changed branch: it prints the table again and
    stores a new snapshot, whatever the table holds. *)
Theorem link_event_forces_report s a dist needSend :
  (result_of (linkChange a dist needSend s) = Val tt ->
   let s' := state_of (linkChange a dist needSend s) in
   table_changed s' = true /\
   output_of (showrt s') =
     [PrintLine "Distance vector list is:";
      PrintTable (rows_of (MaxHop s') (rtrTable s'))] /\
   rtrTable_history (state_of (showrt s')) =
     Some (rtrTable (state_of (showrt s')))) /\
  (result_of (linkDown a needSend s) = Val tt ->
   let s' := state_of (linkDown a needSend s) in
   table_changed s' = true /\
   output_of (showrt s') =
     [PrintLine "Distance vector list is:";
      PrintTable (rows_of (MaxHop s') (rtrTable s'))] /\
   rtrTable_history (state_of (showrt s')) =
     Some (rtrTable (state_of (showrt s')))).
Proof.
  assert (G : forall s', rtrTable_history s' = None ->
    table_changed s' = true /\
    output_of (showrt s') =
      [PrintLine "Distance vector list is:";
       PrintTable (rows_of (MaxHop s') (rtrTable s'))] /\
    rtrTable_history (state_of (showrt s')) =
      Some (rtrTable (state_of (showrt s')))).
  { intros s' Hh. pose proof (no_history_changed s' Hh) as C.
    rewrite (showrt_changed s' C). auto. }
  split.
  - intros R s'. apply G. subst s'.
    destruct (dget a (addr2rName s)) as [P|] eqn:Ha.
    + rewrite (linkChange_run s a P dist needSend Ha). reflexivity.
    + rewrite (linkChange_unknown s a dist needSend Ha) in R. discriminate.
  - intros R s'. apply G. subst s'.
    destruct (linkDown_cases s a needSend) as [(P & Ha & Hn & Hc)|(E & _)].
    + rewrite (linkDown_run s a P needSend Ha Hn Hc). reflexivity.
    + rewrite E in R. discriminate.
Qed.

Lemma link_event_forces_report_witness :
  table_changed settled_router = false /\
  rtrTable (state_of (linkChange addrA 2 false settled_router))
    = rtrTable settled_router /\
  table_changed (state_of (linkChange addrA 2 false settled_router)) = true /\
  table_changed (state_of (linkDown addrA false settled_router)) = true.
Proof.
  split; [reflexivity|]. split; [reflexivity|].
  pose proof (link_event_forces_report settled_router addrA 2 false) as [H1 H2].
  split.
  - apply H1. reflexivity.
  - apply H2. reflexivity.
Defined.

(** ** The relaxation rule of [__updatertrTable] *)

Lemma set_rtrTable_same s : set_rtrTable (rtrTable s) s = s.
Proof. destruct s; reflexivity. Qed.

Section Relax.
Variables (self From : NodeName) (c maxHop : Z) (v : RtrTable).

Local Abbreviation relax_table := (relax_table self From c maxHop v).
Local Abbreviation relax_entry := (relax_entry self From c maxHop v).

Lemma relax_table_same t dest :
  dget dest (relax_table t dest) = relax_entry dest (dget dest t).
Proof.
  unfold relax_table, relax_entry.
  destruct (dget dest v) as [adv|]; [|reflexivity].
  destruct (String.eqb dest self); [reflexivity|].
  destruct (dget dest t) as [e|] eqn:G.
  - destruct (String.eqb (nextHop e) From).
    + now apply dget_set_cost_eq.
    + destruct (c + cost adv <? cost e); [|assumption].
      rewrite (dget_set_nextHop_eq dest From _ _ (dget_set_cost_eq dest _ t e G)).
      reflexivity.
  - apply dget_dset_eq.
Qed.

Lemma relax_table_other t dest d :
  dest <> d -> dget d (relax_table t dest) = dget d t.
Proof.
  intros N. unfold relax_table.
  destruct (dget dest v) as [adv|]; [|reflexivity].
  destruct (String.eqb dest self); [reflexivity|].
  destruct (dget dest t) as [e|] eqn:G.
  - destruct (String.eqb (nextHop e) From).
    + now apply dget_set_cost_neq.
    + destruct (c + cost adv <? cost e); [|reflexivity].
      rewrite dget_set_nextHop_neq by assumption.
      now apply dget_set_cost_neq.
  - now apply dget_dset_neq.
Qed.

Lemma relax_table_keys t dest :
  exists rest, keys (relax_table t dest) = (keys t ++ rest)%list.
Proof.
  unfold relax_table.
  destruct (dget dest v) as [adv|]; [|exists []; now rewrite app_nil_r].
  destruct (String.eqb dest self); [exists []; now rewrite app_nil_r|].
  destruct (dget dest t) as [e|] eqn:G.
  - exists []. rewrite app_nil_r.
    destruct (String.eqb (nextHop e) From); [apply keys_set_cost|].
    destruct (c + cost adv <? cost e); [|reflexivity].
    now rewrite keys_set_nextHop, keys_set_cost.
  - apply keys_dset_extends.
Qed.

Lemma relax_entry_idem dest old :
  relax_entry dest (relax_entry dest old) = relax_entry dest old.
Proof.
  unfold relax_entry.
  destruct (dget dest v) as [adv|]; [|reflexivity].
  destruct (String.eqb dest self); [reflexivity|].
  destruct old as [e|].
  - destruct (String.eqb (nextHop e) From) eqn:E1; cbn [nextHop].
    + now rewrite E1.
    + destruct (c + cost adv <? cost e) eqn:E2.
      * now rewrite String.eqb_refl.
      * now rewrite E1, E2.
  - cbn [nextHop]. now rewrite String.eqb_refl.
Qed.

Lemma fold_relax_get dests t d :
  dget d (fold_left relax_table dests t) =
  if in_dec string_dec d dests then relax_entry d (dget d t) else dget d t.
Proof.
  revert t. induction dests as [|k dests IH]; intros t; [reflexivity|].
  cbn [fold_left]. rewrite IH.
  destruct (string_dec k d) as [->|N].
  - rewrite relax_table_same.
    destruct (in_dec string_dec d dests), (in_dec string_dec d (d :: dests)) as [|N'];
      try reflexivity; try apply relax_entry_idem.
    all: exfalso; apply N'; now left.
  - rewrite (relax_table_other t k d N).
    destruct (in_dec string_dec d dests) as [I|I], (in_dec string_dec d (k :: dests)) as [I'|I'];
      try reflexivity.
    + exfalso; apply I'; now right.
    + destruct I' as [E|I']; [congruence|contradiction].
Qed.

Lemma fold_relax_keys dests t :
  exists rest, keys (fold_left relax_table dests t) = (keys t ++ rest)%list.
Proof.
  revert t. induction dests as [|k dests IH]; intros t.
  - exists []. now rewrite app_nil_r.
  - cbn [fold_left]. destruct (IH (relax_table t k)) as [r1 E1].
    destruct (relax_table_keys t k) as [r0 E0].
    exists (r0 ++ r1)%list. now rewrite E1, E0, app_assoc.
Qed.

End Relax.

Lemma relax_dest_run s From c v dest :
  dget From (neighCost s) = Some c ->
  In dest (keys v) ->
  relax_dest From v dest s =
  (Val tt,
   set_rtrTable (relax_table (name s) From c (MaxHop s) v (rtrTable s) dest) s,
   []).
Proof.
  intros Hc I. destruct (keys_dget dest v I) as [adv Hv].
  unfold relax_dest, relax_table. unfold_monad. rewrite Hv.
  destruct (String.eqb dest (name s)); [now rewrite set_rtrTable_same|].
  destruct (dget dest (rtrTable s)) as [e|].
  - destruct (String.eqb (nextHop e) From).
    + rewrite Hc. reflexivity.
    + rewrite Hc. destruct (c + cost adv <? cost e); [reflexivity|].
      now rewrite set_rtrTable_same.
  - rewrite Hc. reflexivity.
Qed.

Lemma for_each_relax_run From c v dests : forall s,
  dget From (neighCost s) = Some c ->
  incl dests (keys v) ->
  for_each dests (relax_dest From v) s =
  (Val tt,
   set_rtrTable
     (fold_left (relax_table (name s) From c (MaxHop s) v) dests (rtrTable s)) s,
   []).
Proof.
  induction dests as [|k dests IH]; intros s Hc I.
  - cbn. now rewrite set_rtrTable_same.
  - cbn [for_each]. unfold bind.
    rewrite (relax_dest_run s From c v k Hc) by (apply I; now left).
    rewrite IH; [reflexivity|exact Hc|].
    intros x Hx. apply I. now right.
Qed.

(** A vector from a known sender with a link cost is applied in full. *)
Lemma updatertrTable_run s a From c v :
  dget a (addr2rName s) = Some From ->
  dget From (neighCost s) = Some c ->
  updatertrTable a v s =
  (Val tt,
   set_rtrTable
     (fold_left (relax_table (name s) From c (MaxHop s) v) (keys v) (rtrTable s)) s,
   []).
Proof.
  intros Ha Hc. unfold updatertrTable. unfold bind at 1. unfold get at 1.
  unfold bind at 1. unfold lookup at 1. rewrite Ha. unfold ret at 1.
  rewrite (for_each_relax_run From c v (keys v) s Hc (incl_refl _)).
  reflexivity.
Qed.

Lemma updatertrTable_get s a From c v d :
  dget a (addr2rName s) = Some From ->
  dget From (neighCost s) = Some c ->
  dget d (rtrTable (state_of (updatertrTable a v s))) =
  relax_entry (name s) From c (MaxHop s) v d (dget d (rtrTable s)).
Proof.
  intros Ha Hc. rewrite (updatertrTable_run s a From c v Ha Hc).
  cbn [state_of fst snd set_rtrTable rtrTable]. rewrite fold_relax_get.
  destruct (in_dec string_dec d (keys v)) as [I|N]; [reflexivity|].
  apply dget_None_keys in N. unfold relax_entry. now rewrite N.
Qed.

(** Whatever the lookups do, a round of the loop either leaves the router
    as it is or relaxes the table. *)
Lemma relax_dest_cases s From v dest :
  state_of (relax_dest From v dest s) = s \/
  exists c, dget From (neighCost s) = Some c /\
    relax_dest From v dest s =
    (Val tt,
     set_rtrTable (relax_table (name s) From c (MaxHop s) v (rtrTable s) dest) s,
     []).
Proof.
  destruct (dget From (neighCost s)) as [c|] eqn:Hc.
  - destruct (in_dec string_dec dest (keys v)) as [I|N].
    + right. exists c. split; [reflexivity|]. now apply relax_dest_run.
    + left. apply dget_None_keys in N.
      unfold relax_dest. unfold_monad.
      destruct (String.eqb dest (name s)); [reflexivity|].
      destruct (dget dest (rtrTable s)) as [e|].
      * destruct (String.eqb (nextHop e) From); rewrite Hc, N; reflexivity.
      * rewrite Hc, N. reflexivity.
  - left. unfold relax_dest. unfold_monad.
    destruct (String.eqb dest (name s)); [reflexivity|].
    destruct (dget dest (rtrTable s)) as [e|].
    + destruct (String.eqb (nextHop e) From); rewrite Hc; reflexivity.
    + rewrite Hc. reflexivity.
Qed.

Lemma for_each_state_inv {A} (P : Router -> Prop) (body : A -> M unit) :
  (forall x s, P s -> P (state_of (body x s))) ->
  forall l s, P s -> P (state_of (for_each l body s)).
Proof.
  intros Hb. induction l as [|x l IH]; intros s Hs; [exact Hs|].
  cbn [for_each]. unfold bind.
  pose proof (Hb x s Hs) as H1.
  destruct (body x s) as [[[u|e] s1] o1]; cbn [state_of fst snd] in *.
  - pose proof (IH s1 H1) as H2.
    destruct (for_each l body s1) as [[r2 s2] o2]. exact H2.
  - exact H1.
Qed.

(** An invariant of the relaxation rounds is an invariant of
    [__updatertrTable], however it ends. *)
Lemma updatertrTable_inv (P : Router -> Prop) a v s :
  P s ->
  (forall s1 From c dest, P s1 -> dget From (neighCost s1) = Some c ->
     P (set_rtrTable
          (relax_table (name s1) From c (MaxHop s1) v (rtrTable s1) dest) s1)) ->
  P (state_of (updatertrTable a v s)).
Proof.
  intros Hs Hstep. unfold updatertrTable.
  unfold bind at 1. unfold get at 1. unfold bind at 1. unfold lookup at 1.
  destruct (dget a (addr2rName s)) as [From|]; [|exact Hs].
  unfold ret at 1.
  pose proof (for_each_state_inv P (relax_dest From v)) as F.
  assert (Hb : forall x s0, P s0 -> P (state_of (relax_dest From v x s0))).
  { intros x s0 H0. destruct (relax_dest_cases s0 From v x) as [E|(c & Hc & E)].
    - now rewrite E.
    - rewrite E. cbn [state_of fst snd]. now apply Hstep. }
  specialize (F Hb (keys v) s Hs).
  destruct (for_each (keys v) (relax_dest From v) s) as [[r2 s2] o2].
  exact F.
Qed.

Lemma relax_entry_self self From c maxHop v old :
  relax_entry self From c maxHop v self old = old.
Proof.
  unfold relax_entry. destruct (dget self v); [|reflexivity].
  now rewrite String.eqb_refl.
Qed.

(** C9. Applying a vector leaves the entry of the router's own name as it
    was: absent stays absent, present stays the same, however the
    application ends. *)
Theorem updatertrTable_skips_self s a v :
  dget (name s) (rtrTable (state_of (updatertrTable a v s)))
  = dget (name s) (rtrTable s).
Proof.
  pose (P := fun s1 : Router =>
    name s1 = name s /\
    dget (name s) (rtrTable s1) = dget (name s) (rtrTable s)).
  assert (H : P (state_of (updatertrTable a v s))).
  { apply updatertrTable_inv.
    - split; reflexivity.
    - intros s1 From c dest [Hn Ht] _. split; [exact Hn|].
      cbn [set_rtrTable rtrTable]. rewrite Hn.
      destruct (string_dec dest (name s)) as [->|N].
      + rewrite relax_table_same, relax_entry_self. exact Ht.
      + rewrite relax_table_other by assumption. exact Ht. }
  exact (proj2 H).
Qed.

(** C1 (as amended). For a destination other than the router itself whose
    route goes through the sender [F], applying the vector overwrites the
    cost with [min (neighCost[F] + advertised) (MaxHop + 1)], larger or
    not, and keeps [F] as next hop. *)
Theorem same_hop_overwrites s a F c v d adv e :
  dget a (addr2rName s) = Some F ->
  dget F (neighCost s) = Some c ->
  dget d v = Some adv ->
  dget d (rtrTable s) = Some e ->
  nextHop e = F ->
  d <> name s ->
  let r := updatertrTable a v s in
  result_of r = Val tt /\
  dget d (rtrTable (state_of r))
  = Some (mkEntry F (Z.min (c + cost adv) (MaxHop s + 1))).
Proof.
  intros Ha Hc Hv He Hn Hd r. subst r. split.
  - now rewrite (updatertrTable_run s a F c v Ha Hc).
  - rewrite (updatertrTable_get s a F c v d Ha Hc).
    unfold relax_entry. rewrite Hv, He.
    apply String.eqb_neq in Hd. rewrite Hd.
    rewrite Hn, String.eqb_refl. reflexivity.
Qed.

(** The third step of the relaxation scenario: the cost goes up from 5 to
    16. *)
Lemma same_hop_overwrites_witness :
  let s := run [UpdatertrTable addrA [("C", mkEntry "C" 3)]] sample_router in
  let r := updatertrTable addrA [("C", mkEntry "C" 20)] s in
  dget "C" (rtrTable s) = Some (mkEntry "A" 5) /\
  result_of r = Val tt /\
  dget "C" (rtrTable (state_of r)) = Some (mkEntry "A" 16).
Proof.
  split; [reflexivity|].
  apply (same_hop_overwrites
           (run [UpdatertrTable addrA [("C", mkEntry "C" 3)]] sample_router)
           addrA "A" 2 [("C", mkEntry "C" 20)] "C" (mkEntry "C" 20)
           (mkEntry "A" 5));
    try reflexivity.
  discriminate.
Defined.

(** C1 as stated fails for the router's own name: the entry [E] of router
    [E] goes through the sender [E], the vector advertises [E] at 3, and the
    cost stays 3 instead of becoming [min (3 + 3) 16]. *)
Lemma same_hop_overwrite_not_for_self :
  let s := self_linked_router in
  let v := [("E", mkEntry "E" 3)] in
  dget addrE (addr2rName s) = Some "E" /\
  dget "E" (neighCost s) = Some 3 /\
  dget "E" v = Some (mkEntry "E" 3) /\
  dget "E" (rtrTable s) = Some (mkEntry "E" 3) /\
  result_of (updatertrTable addrE v s) = Val tt /\
  dget "E" (rtrTable (state_of (updatertrTable addrE v s)))
    = Some (mkEntry "E" 3) /\
  Some (mkEntry "E" 3)
    <> Some (mkEntry "E" (Z.min (3 + cost (mkEntry "E" 3)) (MaxHop s + 1))).
Proof.
  repeat split; try reflexivity. discriminate.
Qed.

(** C3 (as amended). For a destination other than the router itself whose
    route does not go through the sender [F], the entry becomes
    [(F, min (sum) (MaxHop + 1))] exactly when the sum
    [neighCost[F] + advertised], before the cap, is below the stored cost;
    otherwise it stays.  With a stored cost of at most [MaxHop + 1] the test
    on the sum and the test on the capped candidate agree. *)
Theorem other_hop_relaxes s a F c v d adv e :
  dget a (addr2rName s) = Some F ->
  dget F (neighCost s) = Some c ->
  dget d v = Some adv ->
  dget d (rtrTable s) = Some e ->
  nextHop e <> F ->
  d <> name s ->
  let r := updatertrTable a v s in
  let candidate := Z.min (c + cost adv) (MaxHop s + 1) in
  result_of r = Val tt /\
  (dget d (rtrTable (state_of r)) = Some (mkEntry F candidate)
     <-> c + cost adv < cost e) /\
  (~ c + cost adv < cost e -> dget d (rtrTable (state_of r)) = Some e) /\
  (cost e <= MaxHop s + 1 -> (c + cost adv < cost e <-> candidate < cost e)).
Proof.
  intros Ha Hc Hv He Hn Hd r candidate. subst r candidate.
  assert (G : dget d (rtrTable (state_of (updatertrTable a v s))) =
              if c + cost adv <? cost e
              then Some (mkEntry F (Z.min (c + cost adv) (MaxHop s + 1)))
              else Some e).
  { rewrite (updatertrTable_get s a F c v d Ha Hc).
    unfold relax_entry. rewrite Hv, He.
    apply String.eqb_neq in Hd. rewrite Hd.
    apply String.eqb_neq in Hn. rewrite Hn. reflexivity. }
  split; [now rewrite (updatertrTable_run s a F c v Ha Hc)|].
  rewrite G. destruct (Z.ltb_spec (c + cost adv) (cost e)) as [L|L].
  - split; [tauto|]. split; [tauto|]. intros _. lia.
  - split; [|split].
    + split; [|lia]. intros E. exfalso. apply Hn.
      injection E as E1. now rewrite E1.
    + reflexivity.
    + intros B. lia.
Qed.

(** The second step of the relaxation scenario: [B] offers [C] at
    [5 + 1], no better than 5, and the route through [A] stays. *)
Lemma other_hop_relaxes_witness :
  let s := run [UpdatertrTable addrA [("C", mkEntry "C" 3)]] sample_router in
  let r := updatertrTable addrB [("C", mkEntry "C" 1)] s in
  dget "C" (rtrTable (state_of r)) = Some (mkEntry "A" 5).
Proof.
  apply (other_hop_relaxes
           (run [UpdatertrTable addrA [("C", mkEntry "C" 3)]] sample_router)
           addrB "B" 5 [("C", mkEntry "C" 1)] "C" (mkEntry "C" 1)
           (mkEntry "A" 5));
    try reflexivity; try discriminate.
Defined.

(** C3 as stated fails in two places.  With the stored cost 17 and [A]
    (link cost 2) advertising [C] at 16, the capped candidate 16 is below
    17, yet the sum 18 is not and the entry stays.  And the router's own
    name is skipped, whatever the costs. *)
Lemma capped_candidate_not_the_test :
  (let s := far_link_router in
   let v := [("C", mkEntry "C" 16)] in
   dget addrA (addr2rName s) = Some "A" /\
   dget "A" (neighCost s) = Some 2 /\
   dget "C" (rtrTable s) = Some (mkEntry "C" 17) /\
   Z.min (2 + 16) (MaxHop s + 1) < 17 /\
   result_of (updatertrTable addrA v s) = Val tt /\
   dget "C" (rtrTable (state_of (updatertrTable addrA v s)))
     = Some (mkEntry "C" 17)) /\
  (let s := self_linked_router in
   let v := [("E", mkEntry "E" 0)] in
   dget addrA (addr2rName s) = Some "A" /\
   dget "A" (neighCost s) = Some 2 /\
   dget "E" (rtrTable s) = Some (mkEntry "E" 3) /\
   Z.min (2 + 0) (MaxHop s + 1) < 3 /\
   result_of (updatertrTable addrA v s) = Val tt /\
   dget "E" (rtrTable (state_of (updatertrTable addrA v s)))
     = Some (mkEntry "E" 3)).
Proof.
  split; repeat split.
Qed.

(** ** Poison reverse *)

Section Poison.
Variables (maxHop : Z) (target : NodeName) (table : RtrTable).

Local Abbreviation advertised := (advertised maxHop target).
Local Abbreviation partly_poisoned := (partly_poisoned maxHop target table).

Lemma poison_same rtrtable dest :
  partly_poisoned rtrtable ->
  dget dest (poison maxHop target table rtrtable dest)
  = option_map (advertised dest) (dget dest table).
Proof.
  intros Hp. unfold poison, advertised.
  destruct (dget dest table) as [e|] eqn:G; cbn [option_map].
  - destruct (negb (String.eqb dest target) && String.eqb (nextHop e) target) eqn:C.
    + destruct (Hp dest) as [E|E]; rewrite G in E.
      * now rewrite (dget_set_cost_eq dest _ rtrtable e E).
      * cbn [option_map] in E. unfold advertised in E. rewrite C in E.
        now rewrite (dget_set_cost_eq dest _ rtrtable _ E).
    + destruct (Hp dest) as [E|E]; rewrite G in E; [exact E|].
      cbn [option_map] in E. unfold advertised in E. now rewrite C in E.
  - destruct (Hp dest) as [E|E]; rewrite G in E; exact E.
Qed.

Lemma poison_other rtrtable dest d :
  dest <> d -> dget d (poison maxHop target table rtrtable dest) = dget d rtrtable.
Proof.
  intros N. unfold poison. destruct (dget dest table) as [e|]; [|reflexivity].
  destruct (negb (String.eqb dest target) && String.eqb (nextHop e) target);
    [|reflexivity].
  now apply dget_set_cost_neq.
Qed.

Lemma poison_keys rtrtable dest :
  keys (poison maxHop target table rtrtable dest) = keys rtrtable.
Proof.
  unfold poison. destruct (dget dest table) as [e|]; [|reflexivity].
  destruct (negb (String.eqb dest target) && String.eqb (nextHop e) target);
    [|reflexivity].
  apply keys_set_cost.
Qed.

Lemma poison_partly rtrtable dest :
  partly_poisoned rtrtable ->
  partly_poisoned (poison maxHop target table rtrtable dest).
Proof.
  intros Hp d. destruct (string_dec dest d) as [<-|N].
  - right. now apply poison_same.
  - rewrite poison_other by assumption. apply Hp.
Qed.

Lemma fold_poison_get dests : forall rtrtable d,
  partly_poisoned rtrtable ->
  dget d (fold_left (poison maxHop target table) dests rtrtable) =
  if in_dec string_dec d dests
  then option_map (advertised d) (dget d table)
  else dget d rtrtable.
Proof.
  induction dests as [|k dests IH]; intros rtrtable d Hp; [reflexivity|].
  cbn [fold_left]. rewrite IH by now apply poison_partly.
  destruct (in_dec string_dec d dests) as [I|I],
           (in_dec string_dec d (k :: dests)) as [I'|I']; try reflexivity.
  - exfalso. apply I'. now right.
  - destruct I' as [->|I']; [|contradiction]. now apply poison_same.
  - apply poison_other. intros ->. apply I'. now left.
Qed.

Lemma fold_poison_keys dests : forall rtrtable,
  keys (fold_left (poison maxHop target table) dests rtrtable) = keys rtrtable.
Proof.
  induction dests as [|k dests IH]; intros rtrtable; [reflexivity|].
  cbn [fold_left]. now rewrite IH, poison_keys.
Qed.

End Poison.

Lemma vectorFor_get s target d :
  dget d (vectorFor s target) =
  if PoisonReverse s
  then option_map (advertised (MaxHop s) target d) (dget d (rtrTable s))
  else dget d (rtrTable s).
Proof.
  unfold vectorFor. destruct (PoisonReverse s); [|reflexivity].
  rewrite fold_poison_get by (intros x; now left).
  destruct (in_dec string_dec d (keys (rtrTable s))) as [I|N]; [reflexivity|].
  apply dget_None_keys in N. now rewrite N.
Qed.

(** C2. The vector built for a neighbour [T] has the destinations of the
    table in the same order.  With poison reverse on, a destination other
    than [T] routed through [T] is advertised at [MaxHop + 1], [T] itself at
    its stored cost, and every other destination unchanged; with poison
    reverse off the vector is the table. *)
Theorem vectorFor_poison_reverse s T :
  keys (vectorFor s T) = keys (rtrTable s) /\
  (PoisonReverse s = false -> vectorFor s T = rtrTable s) /\
  (PoisonReverse s = true ->
   forall d e, dget d (rtrTable s) = Some e ->
     (d <> T -> nextHop e = T ->
        dget d (vectorFor s T) = Some (mkEntry (nextHop e) (MaxHop s + 1))) /\
     (d = T -> dget d (vectorFor s T) = Some e) /\
     (d <> T -> nextHop e <> T -> dget d (vectorFor s T) = Some e)).
Proof.
  split; [|split].
  - unfold vectorFor. destruct (PoisonReverse s); [|reflexivity].
    apply fold_poison_keys.
  - intros Off. unfold vectorFor. now rewrite Off.
  - intros On d e G. rewrite vectorFor_get, On, G. cbn [option_map].
    unfold advertised. repeat split.
    + intros N E. apply String.eqb_neq in N. rewrite N, E, String.eqb_refl.
      reflexivity.
    + intros ->. now rewrite String.eqb_refl.
    + intros _ N. apply String.eqb_neq in N. rewrite N.
      now rewrite andb_false_r.
Qed.

Lemma vectorFor_poison_reverse_witness :
  vectorFor learned_router "A" =
    [("A", mkEntry "A" 2); ("B", mkEntry "B" 5);
     ("C", mkEntry "A" 16); ("D", mkEntry "A" 16)] /\
  dget "C" (vectorFor learned_router "A") = Some (mkEntry "A" 16) /\
  dget "A" (vectorFor learned_router "A") = Some (mkEntry "A" 2) /\
  dget "B" (vectorFor learned_router "A") = Some (mkEntry "B" 5) /\
  vectorFor (set_PoisonReverse false learned_router) "A"
    = rtrTable learned_router.
Proof.
  split; [reflexivity|].
  destruct (vectorFor_poison_reverse learned_router "A") as (_ & _ & On).
  specialize (On eq_refl).
  split; [|split; [|split]].
  - destruct (On "C" (mkEntry "A" 5) eq_refl) as (H & _ & _).
    apply H; [discriminate|reflexivity].
  - destruct (On "A" (mkEntry "A" 2) eq_refl) as (_ & H & _).
    apply H; reflexivity.
  - destruct (On "B" (mkEntry "B" 5) eq_refl) as (_ & _ & H).
    apply H; discriminate.
  - apply (vectorFor_poison_reverse (set_PoisonReverse false learned_router) "A").
    reflexivity.
Defined.

(** ** Stored values of a dictionary *)

Section Values.
Context {K V : Type} `{EqDec K}.
Variable Q : V -> Prop.

Local Abbreviation all_values := (all_values Q).

Lemma all_values_dset k v d :
  all_values d -> Q v -> all_values (dset k v d).
Proof.
  intros Hd Hv. induction d as [|[k0 v0] d IH]; simpl.
  - repeat constructor. exact Hv.
  - inversion Hd as [|? ? H0 Hd']; subst.
    destruct (eq_dec k k0); constructor; auto.
    now apply IH.
Qed.

Lemma all_values_dpop k d : all_values d -> all_values (dpop k d).
Proof.
  intros Hd. induction d as [|[k0 v0] d IH]; simpl; [constructor|].
  inversion Hd as [|? ? H0 Hd']; subst.
  destruct (eq_dec k k0); [now apply IH|constructor; [assumption|now apply IH]].
Qed.

Lemma all_values_dget k v d : all_values d -> dget k d = Some v -> Q v.
Proof.
  intros Hd G. apply dget_In in G.
  unfold all_values in Hd. rewrite Forall_forall in Hd.
  exact (Hd (k, v) G).
Qed.

End Values.

(** With distinct keys, every stored item is the one a lookup finds. *)
Lemma In_dget {K V} `{EqDec K} (k : K) (v : V) (d : dict K V) :
  NoDup (keys d) -> In (k, v) d -> dget k d = Some v.
Proof.
  induction d as [|[k0 v0] d IH]; simpl; [tauto|].
  intros ND [E|I].
  - injection E as -> ->. destruct (eq_dec k k); congruence.
  - inversion ND as [|? ? N0 ND']; subst.
    destruct (eq_dec k k0) as [->|N].
    + exfalso. apply N0. change k0 with (fst (k0, v)). now apply in_map.
    + auto.
Qed.

Lemma all_values_of_dget {K V} `{EqDec K} (Q : V -> Prop) (d : dict K V) :
  NoDup (keys d) ->
  (forall k v, dget k d = Some v -> Q v) ->
  all_values Q d.
Proof.
  intros ND Hq. apply Forall_forall. intros [k v] I.
  apply (Hq k v). now apply In_dget.
Qed.

(** ** The clamp of [__showrt] *)

Lemma clamp_entry_idem maxHop e :
  clamp_entry maxHop (clamp_entry maxHop e) = clamp_entry maxHop e.
Proof.
  unfold clamp_entry. destruct (Z.gtb_spec (cost e) maxHop) as [G|G].
  - cbn [cost nextHop]. destruct (Z.gtb_spec (maxHop + 1) maxHop); [reflexivity|lia].
  - destruct (Z.gtb_spec (cost e) maxHop); [lia|reflexivity].
Qed.

Lemma clamp_entry_le maxHop e : cost (clamp_entry maxHop e) <= maxHop + 1.
Proof.
  unfold clamp_entry. destruct (Z.gtb_spec (cost e) maxHop); cbn [cost]; lia.
Qed.

Lemma clamp_entry_fixed maxHop e :
  cost e <= maxHop + 1 -> clamp_entry maxHop e = e.
Proof.
  intros L. unfold clamp_entry. destruct (Z.gtb_spec (cost e) maxHop) as [G|G];
    [|reflexivity].
  destruct e as [nh c]. cbn [cost nextHop] in *. f_equal. lia.
Qed.

Lemma clamp_cost_same maxHop t dest :
  dget dest (clamp_cost maxHop dest t)
  = option_map (clamp_entry maxHop) (dget dest t).
Proof.
  unfold clamp_cost, clamp_entry.
  destruct (dget dest t) as [e|] eqn:G; cbn [option_map]; [|exact G].
  destruct (cost e >? maxHop); [|exact G].
  now apply dget_set_cost_eq.
Qed.

Lemma clamp_cost_other maxHop t dest d :
  dest <> d -> dget d (clamp_cost maxHop dest t) = dget d t.
Proof.
  intros N. unfold clamp_cost. destruct (dget dest t) as [e|]; [|reflexivity].
  destruct (cost e >? maxHop); [|reflexivity].
  now apply dget_set_cost_neq.
Qed.

Lemma clamp_cost_keys maxHop t dest : keys (clamp_cost maxHop dest t) = keys t.
Proof.
  unfold clamp_cost. destruct (dget dest t) as [e|]; [|reflexivity].
  destruct (cost e >? maxHop); [|reflexivity].
  apply keys_set_cost.
Qed.

Lemma report_rows_fst maxHop dests : forall t,
  fst (report_rows maxHop dests t)
  = fold_left (fun t dest => clamp_cost maxHop dest t) dests t.
Proof.
  induction dests as [|k dests IH]; intros t; [reflexivity|].
  cbn [report_rows fold_left]. rewrite <- IH.
  destruct (report_rows maxHop dests (clamp_cost maxHop k t)). reflexivity.
Qed.

Lemma fold_clamp_keys maxHop dests : forall t,
  keys (fold_left (fun t dest => clamp_cost maxHop dest t) dests t) = keys t.
Proof.
  induction dests as [|k dests IH]; intros t; [reflexivity|].
  cbn [fold_left]. now rewrite IH, clamp_cost_keys.
Qed.

Lemma fold_clamp_get maxHop dests : forall t d,
  dget d (fold_left (fun t dest => clamp_cost maxHop dest t) dests t) =
  if in_dec string_dec d dests
  then option_map (clamp_entry maxHop) (dget d t)
  else dget d t.
Proof.
  induction dests as [|k dests IH]; intros t d; [reflexivity|].
  cbn [fold_left]. rewrite IH.
  destruct (string_dec k d) as [->|N].
  - rewrite clamp_cost_same.
    destruct (in_dec string_dec d dests), (in_dec string_dec d (d :: dests)) as [|N'];
      try reflexivity.
    + destruct (dget d t); cbn [option_map]; [|reflexivity].
      now rewrite clamp_entry_idem.
    + exfalso; apply N'; now left.
    + exfalso; apply N'; now left.
  - rewrite (clamp_cost_other maxHop t k d N).
    destruct (in_dec string_dec d dests) as [I|I],
             (in_dec string_dec d (k :: dests)) as [I'|I']; try reflexivity.
    + exfalso; apply I'; now right.
    + destruct I' as [E|I']; [congruence|contradiction].
Qed.

Lemma clamped_keys maxHop t : keys (clamped maxHop t) = keys t.
Proof. unfold clamped. rewrite report_rows_fst. apply fold_clamp_keys. Qed.

(** The report clamps every entry a lookup can find. *)
Lemma clamped_get maxHop t d :
  dget d (clamped maxHop t) = option_map (clamp_entry maxHop) (dget d t).
Proof.
  unfold clamped. rewrite report_rows_fst, fold_clamp_get.
  destruct (in_dec string_dec d (keys t)) as [I|N]; [reflexivity|].
  apply dget_None_keys in N. now rewrite N.
Qed.

Lemma clamped_all_values (Q : Entry -> Prop) maxHop t :
  (forall e, Q e -> Q (mkEntry (nextHop e) (maxHop + 1))) ->
  all_values Q t -> all_values Q (clamped maxHop t).
Proof.
  intros Hq. unfold clamped. rewrite report_rows_fst.
  generalize (keys t) as dests. intros dests. revert t.
  induction dests as [|k dests IH]; intros t Ht; [exact Ht|].
  cbn [fold_left]. apply IH. unfold clamp_cost.
  destruct (dget k t) as [e|] eqn:G; [|exact Ht].
  destruct (cost e >? maxHop); [|exact Ht].
  unfold set_cost. rewrite G. apply all_values_dset; [exact Ht|].
  apply Hq. exact (all_values_dget Q k e t Ht G).
Qed.

(** ** States of the operations, however they end *)

Lemma sendRtrTable_state s : state_of (sendRtrTable s) = s.
Proof.
  unfold sendRtrTable. unfold bind at 1. unfold get at 1.
  pose proof (for_each_state_inv (fun s1 => s1 = s)
    (fun nextHop =>
       let data := Json (vectorFor s nextHop) in
       a <- lookup (rName2addr s) nextHop ;; emit (SendTo data a))) as F.
  assert (Hb : forall (x : string) (s0 : Router), s0 = s ->
    state_of ((fun nextHop =>
       let data := Json (vectorFor s nextHop) in
       a <- lookup (rName2addr s) nextHop ;; emit (SendTo data a)) x s0) = s).
  { intros x s0 ->. unfold_monad. destruct (dget x (rName2addr s)); reflexivity. }
  specialize (F Hb (keys (neighbor s)) s eq_refl).
  destruct (for_each _ _ s) as [[r2 s2] o2]. exact F.
Qed.

(** What [__showrt] leaves behind: the table clamped and stored as the
    snapshot, or the table clamped next to the old snapshot, or nothing
    touched. *)
Lemma showrt_state s :
  let s' := state_of (showrt s) in
  MaxHop s' = MaxHop s /\ neighCost s' = neighCost s /\
  ((table_changed s = true /\
    rtrTable s' = clamped (MaxHop s) (rtrTable s) /\
    rtrTable_history s' = Some (clamped (MaxHop s) (rtrTable s))) \/
   (table_changed s = false /\ convergedPrintTimes s = 0 /\
    rtrTable s' = clamped (MaxHop s) (rtrTable s) /\
    rtrTable_history s' = rtrTable_history s) \/
   (table_changed s = false /\ convergedPrintTimes s <> 0 /\ s' = s)).
Proof.
  destruct (table_changed s) eqn:C.
  - rewrite (showrt_changed s C). cbn. auto 10.
  - destruct (Z.eq_dec (convergedPrintTimes s) 0) as [Z0|Z0].
    + rewrite (showrt_converged s C Z0). cbn. auto 10.
    + rewrite (showrt_silent s C Z0). cbn. auto 10.
Qed.

Lemma init_fields ra nb a2n maxHop s0 :
  init ra nb a2n maxHop = Val s0 ->
  MaxHop s0 = maxHop /\ rtrTable s0 = init_rtrTable nb /\
  neighCost s0 = init_neighCost nb /\ rtrTable_history s0 = None.
Proof.
  unfold init. destruct (dget ra a2n); [|discriminate].
  intros E. injection E as <-. auto.
Qed.

(** ** The range of the stored costs *)

Lemma relax_table_in_range self From c maxHop v t dest :
  -1 <= maxHop -> 0 <= c ->
  all_values (fun e => 0 <= cost e) v ->
  all_values (cost_in_range maxHop) t ->
  all_values (cost_in_range maxHop) (relax_table self From c maxHop v t dest).
Proof.
  intros HM Hc Hv Ht. unfold relax_table.
  destruct (dget dest v) as [adv|] eqn:Gv; [|exact Ht].
  pose proof (all_values_dget _ dest adv v Hv Gv) as Ha. cbn beta in Ha.
  assert (R : forall nh, cost_in_range maxHop
                (mkEntry nh (Z.min (c + cost adv) (maxHop + 1)))).
  { intros nh. unfold cost_in_range. cbn [cost]. lia. }
  destruct (String.eqb dest self); [exact Ht|].
  destruct (dget dest t) as [e|] eqn:G.
  - assert (S1 : all_values (cost_in_range maxHop)
                   (set_cost dest (Z.min (c + cost adv) (maxHop + 1)) t)).
    { unfold set_cost. rewrite G. apply all_values_dset; [exact Ht|apply R]. }
    destruct (String.eqb (nextHop e) From); [exact S1|].
    destruct (c + cost adv <? cost e); [|exact Ht].
    unfold set_nextHop.
    rewrite (dget_set_cost_eq dest _ t e G).
    apply all_values_dset; [exact S1|apply R].
  - apply all_values_dset; [exact Ht|apply R].
Qed.

Lemma exec_range_inv maxHop o s :
  -1 <= maxHop -> op_in_range maxHop o ->
  range_inv maxHop s -> range_inv maxHop (state_of (exec o s)).
Proof.
  intros HM Ho (Hm & Ht & Hn). destruct o as [| |a v|a dist ns|a ns|b]; cbn [exec].
  - destruct (showrt_state s) as (E1 & E2 & Cases).
    split; [congruence|]. rewrite E2. split; [|exact Hn].
    assert (Hcl : all_values (cost_in_range maxHop) (clamped (MaxHop s) (rtrTable s))).
    { apply clamped_all_values; [|exact Ht].
      intros e _. unfold cost_in_range. cbn [cost]. lia. }
    destruct Cases as [(_ & E & _)|[(_ & _ & E & _)|(_ & _ & E)]];
      rewrite E; auto.
  - rewrite sendRtrTable_state. repeat split; assumption.
  - apply updatertrTable_inv; [repeat split; assumption|].
    intros s1 From c dest (Hm1 & Ht1 & Hn1) Hc.
    split; [exact Hm1|]. split; [|exact Hn1].
    cbn [set_rtrTable rtrTable]. rewrite Hm1.
    apply relax_table_in_range; try assumption.
    exact (all_values_dget _ From c (neighCost s1) Hn1 Hc).
  - cbn in Ho. destruct (dget a (addr2rName s)) as [P|] eqn:Ha.
    + rewrite (linkChange_run s a P dist ns Ha). cbn [state_of fst snd].
      split; [exact Hm|]. cbn [rtrTable neighCost]. split.
      * apply all_values_dset; [exact Ht|exact Ho].
      * apply all_values_dset; [exact Hn|lia].
    + rewrite (linkChange_unknown s a dist ns Ha). repeat split; assumption.
  - destruct (linkDown_cases s a ns) as [(P & Ha & Hnb & Hc)|(_ & E1 & _ & E2 & E3)].
    + rewrite (linkDown_run s a P ns Ha Hnb Hc). cbn [state_of fst snd].
      split; [exact Hm|]. cbn [rtrTable neighCost]. split.
      * apply all_values_dset; [exact Ht|].
        unfold cost_in_range. cbn [cost]. lia.
      * now apply all_values_dpop.
    + unfold range_inv. rewrite E1, E2, E3. repeat split; assumption.
  - repeat split; assumption.
Qed.

Lemma run_range_inv maxHop ops : forall s,
  -1 <= maxHop -> Forall (op_in_range maxHop) ops ->
  range_inv maxHop s -> range_inv maxHop (run ops s).
Proof.
  induction ops as [|o ops IH]; intros s HM Ho Hs; [exact Hs|].
  inversion Ho as [|? ? H1 H2]; subst.
  cbn [run fold_left]. apply IH; try assumption.
  now apply exec_range_inv.
Qed.

Lemma init_range_inv ra nb a2n maxHop s0 :
  init ra nb a2n maxHop = Val s0 ->
  all_values (fun n => 0 <= nb_cost n <= maxHop + 1) nb ->
  range_inv maxHop s0.
Proof.
  intros Hi Hnb. destruct (init_fields ra nb a2n maxHop s0 Hi) as (E1 & E2 & E3 & _).
  split; [exact E1|]. rewrite E2, E3. split.
  - unfold init_rtrTable.
    assert (G : forall dests acc, all_values (cost_in_range maxHop) acc ->
      all_values (cost_in_range maxHop)
        (fold_left (fun acc dest => match dget dest nb with
                                    | Some n => dset dest (mkEntry dest (nb_cost n)) acc
                                    | None => acc
                                    end) dests acc)).
    { induction dests as [|k dests IH]; intros acc Ha; [exact Ha|].
      cbn [fold_left]. apply IH. destruct (dget k nb) as [n|] eqn:G; [|exact Ha].
      apply all_values_dset; [exact Ha|].
      exact (all_values_dget _ k n nb Hnb G). }
    apply G. constructor.
  - unfold init_neighCost.
    assert (G : forall dests acc, all_values (fun c => 0 <= c) acc ->
      all_values (fun c => 0 <= c)
        (fold_left (fun acc nh => match dget nh nb with
                                  | Some n => dset nh (nb_cost n) acc
                                  | None => acc
                                  end) dests acc)).
    { induction dests as [|k dests IH]; intros acc Ha; [exact Ha|].
      cbn [fold_left]. apply IH. destruct (dget k nb) as [n|] eqn:G; [|exact Ha].
      apply all_values_dset; [exact Ha|].
      pose proof (all_values_dget _ k n nb Hnb G) as R. cbn beta in R. lia. }
    apply G. constructor.
Qed.

(** C7 (as amended). From a start with link costs within
    [[0, MaxHop + 1]], through any sequence of operations whose link events
    carry a cost within [[0, MaxHop + 1]] and whose vectors advertise
    non-negative costs, every cost stored in the routing table lies within
    [[0, MaxHop + 1]]. *)
Theorem costs_stay_in_range ra nb a2n maxHop s0 ops :
  init ra nb a2n maxHop = Val s0 ->
  -1 <= maxHop ->
  all_values (fun n => 0 <= nb_cost n <= maxHop + 1) nb ->
  Forall (op_in_range maxHop) ops ->
  all_values (fun e => 0 <= cost e <= MaxHop (run ops s0) + 1)
    (rtrTable (run ops s0)).
Proof.
  intros Hi HM Hnb Hops.
  pose proof (run_range_inv maxHop ops s0 HM Hops
                (init_range_inv ra nb a2n maxHop s0 Hi Hnb)) as (E & Ht & _).
  rewrite E. exact Ht.
Qed.

Lemma costs_stay_in_range_witness :
  all_values (fun e => 0 <= cost e <= 16)
    (rtrTable
       (run [UpdatertrTable addrA [("C", mkEntry "C" 3); ("D", mkEntry "C" 20)];
             LinkChange addrC 7 true; Showrt; LinkDown addrA false]
            sample_router)).
Proof.
  apply (costs_stay_in_range addrE sample_neighbor addr2rName_global 15
           sample_router
           [UpdatertrTable addrA [("C", mkEntry "C" 3); ("D", mkEntry "C" 20)];
            LinkChange addrC 7 true; Showrt; LinkDown addrA false]).
  - reflexivity.
  - lia.
  - repeat constructor; cbn; lia.
  - repeat constructor; cbn; lia.
Defined.

(** C7 as stated fails on link events: [linkChange] stores the cost it is
    given, 17 above [MaxHop + 1 = 16] or -4 below 0, and an advertised cost
    of -7 over a link of cost 2 is stored as -5. *)
Lemma link_cost_stored_unclamped :
  init addrE sample_neighbor addr2rName_global 15 = Val sample_router /\
  (dget "C" (rtrTable (run [LinkChange addrC 17 true] sample_router))
     = Some (mkEntry "C" 17) /\
   ~ 17 <= MaxHop (run [LinkChange addrC 17 true] sample_router) + 1) /\
  (dget "C" (rtrTable (run [LinkChange addrC (-4) true] sample_router))
     = Some (mkEntry "C" (-4)) /\
   ~ 0 <= -4) /\
  (dget "C" (rtrTable (run [UpdatertrTable addrA [("C", mkEntry "C" (-7))]]
                           sample_router))
     = Some (mkEntry "A" (-5)) /\
   ~ 0 <= -5).
Proof.
  split; [reflexivity|].
  repeat split; try reflexivity; cbn; lia.
Qed.

(** ** [str] tells tables apart

    Two tables with the same [str] are the same list of items: every piece
    of the rendering ends at a character that cannot occur inside it. *)

Section Rendering.
Import PyStr.

Lemma string_app_assoc (a b c : string) : ((a ++ b) ++ c = a ++ (b ++ c))%string.
Proof. induction a as [|x a IH]; simpl; [reflexivity|now rewrite IH]. Qed.

Lemma split_at_delim c : forall s s' r r',
  mem c s = false -> mem c s' = false ->
  (s ++ String c r = s' ++ String c r')%string ->
  s = s' /\ r = r'.
Proof.
  induction s as [|x s IH]; intros [|x' s'] r r' Hs Hs' E; simpl in *.
  - injection E as ->. auto.
  - injection E as -> _. rewrite Ascii.eqb_refl in Hs'. discriminate.
  - injection E as -> _. rewrite Ascii.eqb_refl in Hs. discriminate.
  - injection E as -> E.
    destruct (Ascii.eqb c x'); [discriminate|].
    destruct (IH s' r r' Hs Hs' E) as [-> ->]. auto.
Qed.

Lemma brace_not_in_uint d : mem "}"%char (NilEmpty.string_of_uint d) = false.
Proof. induction d; simpl; auto. Qed.

Lemma brace_not_in_str_int z : mem "}"%char (str_int z) = false.
Proof.
  unfold str_int. destruct (Z.to_int z) as [d|d]; simpl;
    apply brace_not_in_uint.
Qed.

Lemma str_int_inj z z' : str_int z = str_int z' -> z = z'.
Proof.
  unfold str_int. intros E. apply DecimalZ.to_int_inj.
  assert (S : Some (Z.to_int z) = Some (Z.to_int z')).
  { rewrite <- !NilEmpty.isi. now rewrite E. }
  now injection S.
Qed.

Lemma str_int_delim z z' r r' :
  (str_int z ++ String "}" r = str_int z' ++ String "}" r')%string ->
  z = z' /\ r = r'.
Proof.
  intros E.
  destruct (split_at_delim _ _ _ _ _ (brace_not_in_str_int z)
              (brace_not_in_str_int z') E) as [Ez Er].
  split; [now apply str_int_inj|exact Er].
Qed.

Lemma escape_delim q :
  Ascii.eqb q backslash = false ->
  forall s s' r r',
  (escape q s ++ String q r = escape q s' ++ String q r')%string ->
  s = s' /\ r = r'.
Proof.
  intros Hq.
  induction s as [|x s IH]; intros [|x' s'] r r' E; cbn [escape] in E.
  - cbn in E. injection E as ->. auto.
  - exfalso. destruct (Ascii.eqb x' backslash || Ascii.eqb x' q) eqn:C;
      cbn in E; injection E as E1 _.
    + subst q. cbn in Hq. discriminate.
    + subst x'. rewrite Ascii.eqb_refl, orb_true_r in C. discriminate.
  - exfalso. destruct (Ascii.eqb x backslash || Ascii.eqb x q) eqn:C;
      cbn in E; injection E as E1 _.
    + subst q. cbn in Hq. discriminate.
    + subst x. rewrite Ascii.eqb_refl, orb_true_r in C. discriminate.
  - destruct (Ascii.eqb x backslash || Ascii.eqb x q) eqn:C;
    destruct (Ascii.eqb x' backslash || Ascii.eqb x' q) eqn:C';
      cbn in E.
    + injection E as -> E. destruct (IH s' r r' E) as [-> ->]. auto.
    + exfalso. injection E as E1 _. subst x'.
      rewrite Ascii.eqb_refl in C'. discriminate.
    + exfalso. injection E as E1 _. subst x.
      rewrite Ascii.eqb_refl in C. discriminate.
    + injection E as -> E. destruct (IH s' r r' E) as [-> ->]. auto.
Qed.

Lemma quote_of_cases s : quote_of s = squote \/ quote_of s = dquote.
Proof. unfold quote_of. destruct (mem squote s && negb (mem dquote s)); auto. Qed.

Lemma repr_delim s s' r r' :
  (repr s ++ r = repr s' ++ r')%string -> s = s' /\ r = r'.
Proof.
  unfold repr. cbn [append]. rewrite !string_app_assoc. cbn [append].
  intros E. injection E as Eq E. rewrite <- Eq in E.
  apply (escape_delim (quote_of s)); [|exact E].
  destruct (quote_of_cases s) as [-> | ->]; reflexivity.
Qed.

Lemma append_inj_l (a x y : string) : (a ++ x = a ++ y)%string -> x = y.
Proof.
  induction a as [|c a IH]; cbn [append]; [auto|].
  intros E. injection E as E. auto.
Qed.

Lemma str_item_delim x x' r r' :
  (str_item x ++ r = str_item x' ++ r')%string -> x = x' /\ r = r'.
Proof.
  destruct x as [k [nh c]], x' as [k' [nh' c']].
  unfold str_item, str_entry. cbn [fst snd nextHop cost].
  rewrite !string_app_assoc. intros E.
  apply repr_delim in E. destruct E as [-> E].
  apply append_inj_l in E. apply append_inj_l in E.
  apply repr_delim in E. destruct E as [-> E].
  apply append_inj_l in E. cbn [append] in E.
  apply str_int_delim in E. destruct E as [-> ->]. auto.
Qed.

Lemma str_more_delim : forall t t' r r',
  (str_more t ++ String "}" r = str_more t' ++ String "}" r')%string ->
  t = t' /\ r = r'.
Proof.
  induction t as [|x t IH]; intros [|x' t'] r r' E; cbn [str_more] in E.
  - cbn [append] in E. injection E as ->. auto.
  - cbn [append] in E. discriminate.
  - cbn [append] in E. discriminate.
  - rewrite !string_app_assoc in E. apply append_inj_l in E.
    apply str_item_delim in E. destruct E as [-> E].
    destruct (IH t' r r' E) as [-> ->]. auto.
Qed.

Lemma repr_head s : exists rest, repr s = String squote rest \/ repr s = String dquote rest.
Proof.
  unfold repr. destruct (quote_of_cases s) as [-> | ->]; eexists; eauto.
Qed.

Lemma str_table_inj t t' : str_table t = str_table t' -> t = t'.
Proof.
  destruct t as [|x t], t' as [|x' t']; cbn [str_table]; intros E.
  - reflexivity.
  - exfalso. unfold str_item in E.
    destruct (repr_head (fst x')) as [rest [R|R]]; rewrite R in E;
      cbn in E; discriminate.
  - exfalso. unfold str_item in E.
    destruct (repr_head (fst x)) as [rest [R|R]]; rewrite R in E;
      cbn in E; discriminate.
  - apply append_inj_l in E.
    apply str_item_delim in E. destruct E as [-> E].
    cbn [append] in E.
    apply str_more_delim in E. destruct E as [-> _]. reflexivity.
Qed.

End Rendering.

(** The test of [__showrt] finds no change exactly when the snapshot is
    there and is the table, item for item and in order. *)
Lemma table_changed_false s :
  table_changed s = false <-> rtrTable_history s = Some (rtrTable s).
Proof.
  unfold table_changed. rewrite negb_false_iff, String.eqb_eq.
  destruct (rtrTable_history s) as [h|]; cbn [PyStr.str_history].
  - split.
    + intros E. apply str_table_inj in E. now subst.
    + intros E. injection E as ->. reflexivity.
  - split; [|discriminate]. intros E. exfalso.
    pose proof (str_table_not_None (rtrTable s)) as N.
    cbn [PyStr.str_history] in N. rewrite E in N. discriminate.
Qed.

(** ** The snapshot along a run

    The routing table never loses a key and no key moves, so the snapshot,
    a copy of an earlier table, lists a first part of the keys of the table;
    and it was taken after the clamp. *)

Lemma relax_table_NoDup self From c maxHop v t dest :
  NoDup (keys t) -> NoDup (keys (relax_table self From c maxHop v t dest)).
Proof.
  intros ND. unfold relax_table.
  destruct (dget dest v) as [adv|]; [|exact ND].
  destruct (String.eqb dest self); [exact ND|].
  destruct (dget dest t) as [e|] eqn:G.
  - destruct (String.eqb (nextHop e) From); [now rewrite keys_set_cost|].
    destruct (c + cost adv <? cost e); [|exact ND].
    now rewrite keys_set_nextHop, keys_set_cost.
  - now apply NoDup_keys_dset.
Qed.

Lemma clamped_le maxHop t d e :
  dget d (clamped maxHop t) = Some e -> cost e <= maxHop + 1.
Proof.
  rewrite clamped_get. destruct (dget d t) as [e0|]; cbn [option_map];
    [|discriminate].
  intros E. injection E as <-. apply clamp_entry_le.
Qed.

Lemma exec_snapshot_inv o s :
  snapshot_inv s -> snapshot_inv (state_of (exec o s)).
Proof.
  intros (ND & Hh). destruct o as [| |a v|a dist ns|a ns|b]; cbn [exec].
  - destruct (showrt_state s) as (E1 & _ & Cases). unfold snapshot_inv.
    destruct Cases as [(_ & Et & Eh)|[(C & _ & Et & Eh)|(_ & _ & E)]].
    + rewrite Et, Eh, E1, clamped_keys. split; [exact ND|]. split.
      * exists []. now rewrite app_nil_r.
      * intros d e. apply clamped_le.
    + rewrite Et, Eh, E1, clamped_keys. split; [exact ND|exact Hh].
    + rewrite E. split; assumption.
  - rewrite sendRtrTable_state. split; assumption.
  - apply updatertrTable_inv; [split; assumption|].
    intros s1 From c dest (ND1 & Hh1) _. unfold snapshot_inv.
    cbn [set_rtrTable rtrTable rtrTable_history MaxHop].
    split; [now apply relax_table_NoDup|].
    destruct (rtrTable_history s1) as [h|]; [|exact I].
    destruct Hh1 as ((rest & Ek) & Hc). split; [|exact Hc].
    destruct (relax_table_keys (name s1) From c (MaxHop s1) v (rtrTable s1) dest)
      as [r0 E0].
    exists (rest ++ r0)%list. now rewrite E0, Ek, app_assoc.
  - destruct (dget a (addr2rName s)) as [P|] eqn:Ha.
    + rewrite (linkChange_run s a P dist ns Ha). unfold snapshot_inv.
      cbn [state_of fst snd rtrTable rtrTable_history].
      split; [now apply NoDup_keys_dset|exact I].
    + rewrite (linkChange_unknown s a dist ns Ha). split; assumption.
  - destruct (linkDown_cases s a ns) as [(P & Ha & Hnb & Hc)|(_ & E1 & E2 & _ & E3)].
    + rewrite (linkDown_run s a P ns Ha Hnb Hc). unfold snapshot_inv.
      cbn [state_of fst snd rtrTable rtrTable_history].
      split; [now apply NoDup_keys_dset|exact I].
    + unfold snapshot_inv. rewrite E1, E2, E3. split; assumption.
  - split; assumption.
Qed.

Lemma run_snapshot_inv ops : forall s,
  snapshot_inv s -> snapshot_inv (run ops s).
Proof.
  induction ops as [|o ops IH]; intros s Hs; [exact Hs|].
  cbn [run fold_left]. apply IH. now apply exec_snapshot_inv.
Qed.

Lemma init_snapshot_inv ra nb a2n maxHop s0 :
  init ra nb a2n maxHop = Val s0 -> snapshot_inv s0.
Proof.
  intros Hi. destruct (init_fields ra nb a2n maxHop s0 Hi) as (_ & E2 & _ & E4).
  unfold snapshot_inv. rewrite E2, E4. split; [|exact I].
  unfold init_rtrTable.
  assert (G : forall dests (acc : RtrTable), NoDup (keys acc) ->
    NoDup (keys
      (fold_left (fun acc dest => match dget dest nb with
                                  | Some n => dset dest (mkEntry dest (nb_cost n)) acc
                                  | None => acc
                                  end) dests acc))).
  { induction dests as [|k dests IH]; intros acc Ha; [exact Ha|].
    cbn [fold_left]. apply IH. destruct (dget k nb); [|exact Ha].
    now apply NoDup_keys_dset. }
  apply G. constructor.
Qed.

Lemma reachable_snapshot_inv ra nb a2n maxHop s0 ops :
  init ra nb a2n maxHop = Val s0 -> snapshot_inv (run ops s0).
Proof.
  intros Hi. apply run_snapshot_inv. exact (init_snapshot_inv _ _ _ _ _ Hi).
Qed.

(** ** Tables as sets of triples *)

Lemma triple_inj x y : triple x = triple y -> x = y.
Proof.
  destruct x as [d [nh c]], y as [d' [nh' c']]. unfold triple. cbn.
  intros E. injection E as -> -> ->. reflexivity.
Qed.

Lemma In_triples x t : In (triple x) (triples t) <-> In x t.
Proof.
  unfold triples. rewrite in_map_iff. split.
  - intros (y & E & I). apply triple_inj in E. now subst.
  - intros I. now exists x.
Qed.

Lemma same_keys_incl_eq : forall t h : RtrTable,
  keys t = keys h -> NoDup (keys t) ->
  (forall x, In x t -> In x h) -> t = h.
Proof.
  unfold keys.
  induction t as [|[k e] t IH]; intros [|[k' e'] h] Ek ND Hin;
    simpl in Ek; try discriminate; [reflexivity|].
  injection Ek as <- Ek.
  simpl in ND. inversion ND as [|? ? N0 ND']; subst.
  assert (Ee : e = e').
  { destruct (Hin (k, e) (or_introl eq_refl)) as [E|I]; [congruence|].
    exfalso. apply N0. rewrite Ek.
    change k with (fst (k, e)). now apply in_map. }
  subst e'. f_equal. apply IH; [exact Ek|exact ND'|].
  intros x Hx. destruct (Hin x (or_intror Hx)) as [E|I]; [|exact I].
  exfalso. apply N0. subst x. change k with (fst (k, e)). now apply in_map.
Qed.

(** A table whose keys continue those of the snapshot, and which holds the
    same triples, is the snapshot. *)
Lemma same_triples_eq (t h : RtrTable) rest :
  NoDup (keys t) -> keys t = (keys h ++ rest)%list ->
  same_triples t h -> t = h.
Proof.
  intros ND Ek Hs.
  assert (Hin : forall x, In x t -> In x h).
  { intros x Hx. apply In_triples, Hs, In_triples. exact Hx. }
  destruct rest as [|k rest].
  - rewrite app_nil_r in Ek. now apply same_keys_incl_eq.
  - exfalso. rewrite Ek in ND. apply NoDup_remove_2 in ND. apply ND.
    apply in_or_app. left.
    assert (Ik : In k (keys t)).
    { rewrite Ek. apply in_or_app. right. now left. }
    unfold keys in Ik. rewrite in_map_iff in Ik. destruct Ik as (x & <- & Hx).
    apply in_map. now apply Hin.
Qed.

(** C6. In every state the router can reach, [__showrt] finds the table
    unchanged exactly when there is a snapshot holding the same
    (destination, next hop, cost) triples as the table, as sets. *)
Theorem stable_iff_same_triples ra nb a2n maxHop s0 ops :
  init ra nb a2n maxHop = Val s0 ->
  let s := run ops s0 in
  table_changed s = false <->
  exists h, rtrTable_history s = Some h /\ same_triples (rtrTable s) h.
Proof.
  intros Hi s. rewrite table_changed_false. split.
  - intros E. exists (rtrTable s). split; [exact E|]. intros x. reflexivity.
  - intros (h & Eh & Hs).
    pose proof (reachable_snapshot_inv ra nb a2n maxHop s0 ops Hi) as (ND & Hh).
    fold s in ND, Hh. rewrite Eh in Hh. destruct Hh as ((rest & Ek) & _).
    rewrite Eh. f_equal. symmetry. exact (same_triples_eq _ _ rest ND Ek Hs).
Qed.

Lemma stable_iff_same_triples_witness :
  let s := run [UpdatertrTable addrA [("C", mkEntry "C" 3)]; Showrt]
               sample_router in
  table_changed s = false <->
  exists h, rtrTable_history s = Some h /\ same_triples (rtrTable s) h.
Proof.
  apply (stable_iff_same_triples addrE sample_neighbor addr2rName_global 15
           sample_router
           [UpdatertrTable addrA [("C", mkEntry "C" 3)]; Showrt]).
  reflexivity.
Defined.

(** The comparison itself goes by order: two lists of the same items in
    another order have different [str].  No run leads there, since the
    snapshot is a copy of the table and keys are only ever added at the
    end. *)
Example str_follows_insertion_order :
  String.eqb
    (PyStr.str_table [("B", mkEntry "B" 2); ("C", mkEntry "B" 10)])
    (PyStr.str_table [("C", mkEntry "B" 10); ("B", mkEntry "B" 2)])
  = false.
Proof. reflexivity. Qed.

(** C10. [__showrt] writes to the table: there is a run after which the
    report changes a stored cost.  And in every state the router can reach,
    a report leaves each entry with a cost above [MaxHop] at exactly
    [MaxHop + 1] and the others as they were, so that afterwards every
    stored cost, in the table and in the snapshot, is at most
    [MaxHop + 1]. *)
Theorem showrt_clamps_table :
  (exists ops,
     rtrTable (state_of (showrt (run ops sample_router)))
     <> rtrTable (run ops sample_router)) /\
  (forall ra nb a2n maxHop s0 ops,
     init ra nb a2n maxHop = Val s0 ->
     let s := run ops s0 in
     let s' := state_of (showrt s) in
     result_of (showrt s) = Val tt /\
     (forall d e, dget d (rtrTable s) = Some e ->
        dget d (rtrTable s') =
        Some (if cost e >? MaxHop s
              then mkEntry (nextHop e) (MaxHop s + 1) else e)) /\
     all_values (fun e => cost e <= MaxHop s + 1) (rtrTable s') /\
     (forall h, rtrTable_history s' = Some h ->
        all_values (fun e => cost e <= MaxHop s + 1) h)).
Proof.
  split.
  - exists [LinkChange addrC 17 true]. vm_compute. discriminate.
  - intros ra nb a2n maxHop s0 ops Hi s s'.
    pose proof (reachable_snapshot_inv ra nb a2n maxHop s0 ops Hi) as Inv.
    pose proof (exec_snapshot_inv Showrt _ Inv) as Inv'.
    fold s in Inv, Inv'. cbn [exec] in Inv'. fold s' in Inv'.
    destruct Inv as (ND & Hh). destruct Inv' as (ND' & Hh').
    destruct (showrt_state s) as (EM & _ & Cases). fold s' in EM, Cases.
    (* in each branch the table afterwards is the clamped table *)
    assert (Et : rtrTable s' = clamped (MaxHop s) (rtrTable s) /\
                 result_of (showrt s) = Val tt).
    { destruct Cases as [(C & Et & _)|[(C & Z0 & Et & _)|(C & Z0 & E)]].
      - split; [exact Et|]. now rewrite (showrt_changed s C).
      - split; [exact Et|]. now rewrite (showrt_converged s C Z0).
      - split; [|now rewrite (showrt_silent s C Z0)].
        rewrite E. apply table_changed_false in C. rewrite C in Hh.
        destruct Hh as (_ & Hc).
        apply same_keys_incl_eq.
        + now rewrite clamped_keys.
        + exact ND.
        + intros [d e] Hx. pose proof (In_dget d e _ ND Hx) as G.
          apply dget_In. rewrite clamped_get, G. cbn [option_map].
          f_equal. apply clamp_entry_fixed. exact (Hc d e G). }
    destruct Et as (Et & Er).
    assert (Hle : forall d e, dget d (rtrTable s') = Some e ->
                              cost e <= MaxHop s + 1).
    { intros d e. rewrite Et. apply clamped_le. }
    split; [exact Er|]. split; [|split].
    + intros d e G. rewrite Et, clamped_get, G. reflexivity.
    + apply all_values_of_dget; assumption.
    + intros h Eh. rewrite Eh in Hh'. destruct Hh' as ((rest & Ek) & Hc).
      apply all_values_of_dget.
      * rewrite Ek in ND'. exact (NoDup_app_remove_r _ _ ND').
      * intros d e G. rewrite <- EM. exact (Hc d e G).
Qed.

Lemma showrt_clamps_table_witness :
  let s := run [LinkChange addrC 17 true] sample_router in
  dget "C" (rtrTable s) = Some (mkEntry "C" 17) /\
  dget "C" (rtrTable (state_of (showrt s))) = Some (mkEntry "C" 16) /\
  all_values (fun e => cost e <= 16) (rtrTable (state_of (showrt s))).
Proof.
  destruct showrt_clamps_table as (_ & H).
  destruct (H addrE sample_neighbor addr2rName_global 15 sample_router
              [LinkChange addrC 17 true] eq_refl) as (_ & Hc & Ha & _).
  split; [reflexivity|]. split.
  - exact (Hc "C" (mkEntry "C" 17) eq_refl).
  - exact Ha.
Defined.

(** ** The receive loop and the command loop on bad input *)

Lemma updatertrTable_unknown s a v :
  dget a (addr2rName s) = None ->
  updatertrTable a v s = (Exc KeyError, s, []).
Proof.
  intros Ha. unfold updatertrTable. unfold_monad. now rewrite Ha.
Qed.

Section BadInput.
Variable json_loads : string -> option RtrTable.
Variable py_int : string -> option Z.

(** A reset of the connection is printed and the loop goes on. *)
Lemma recv_reset_continues rest s :
  recvRtrTable json_loads py_int (Reset :: rest) s =
  (result_of (recvRtrTable json_loads py_int rest s),
   state_of (recvRtrTable json_loads py_int rest s),
   PrintExn ConnectionError :: output_of (recvRtrTable json_loads py_int rest s)).
Proof.
  cbn [recvRtrTable]. unfold_monad. cbn.
  destruct (recvRtrTable json_loads py_int rest s) as [[r s'] o]. reflexivity.
Qed.

(** C5, on the code.  A datagram whose payload [json.loads] rejects, or
    whose sender is not in the address table, changes nothing in the router
    and prints nothing; but the exception is not a [ConnectionError], so it
    leaves [__recvRtrTable]: the datagrams that follow are never read. *)
Theorem recv_loop_ends_on_bad_datagram s c d a rest :
  (Ascii.eqb c linkChangeFlag = false /\ Ascii.eqb c linkDownFlag = false /\
   json_loads (String c d) = None) \/
  dget a (addr2rName s) = None ->
  exists e, e <> ConnectionError /\
    recvRtrTable json_loads py_int (Datagram (String c d) a :: rest) s
    = (Exc e, s, []).
Proof.
  intros [(C1 & C2 & J)|Ha].
  - exists JSONDecodeError. split; [discriminate|].
    cbn [recvRtrTable recv_body]. rewrite C1, C2, J. reflexivity.
  - cbn [recvRtrTable recv_body].
    destruct (Ascii.eqb c linkChangeFlag).
    + unfold to_int. destruct (py_int d) as [dist|].
      * exists KeyError. split; [discriminate|].
        unfold bind at 2. unfold ret at 1.
        unfold catch, bind. rewrite (linkChange_unknown s a dist false Ha).
        reflexivity.
      * exists ValueError. split; [discriminate|]. reflexivity.
    + destruct (Ascii.eqb c linkDownFlag).
      * exists KeyError. split; [discriminate|].
        unfold catch, bind. rewrite (linkDown_unknown s a false Ha).
        reflexivity.
      * destruct (json_loads (String c d)) as [v|].
        -- exists KeyError. split; [discriminate|].
           unfold catch, bind. rewrite (updatertrTable_unknown s a v Ha).
           reflexivity.
        -- exists JSONDecodeError. split; [discriminate|]. reflexivity.
Qed.

(** The command loop is written the other way: a command naming an address
    outside the table prints [InputError] and the next command is read. *)
Lemma command_loop_goes_on ip port p rest s :
  py_int port = Some p ->
  dget (ip, p) (addr2rName s) = None ->
  parseUserInput py_int (["linkdown"; ip; port] :: rest) s =
  (result_of (parseUserInput py_int rest s),
   state_of (parseUserInput py_int rest s),
   PrintLine "InputError" :: output_of (parseUserInput py_int rest s)).
Proof.
  intros Hp Ha. cbn [parseUserInput]. unfold catch, bind at 1.
  assert (E : command py_int ["linkdown"; ip; port] s = (Exc KeyError, s, [])).
  { cbv [command token to_int bind ret nth_error String.eqb Ascii.eqb
         Bool.eqb andb].
    rewrite Hp. rewrite (linkDown_unknown s (ip, p) true Ha). reflexivity. }
  rewrite E. unfold emit. cbn.
  destruct (parseUserInput py_int rest s) as [[r s'] o]. reflexivity.
Qed.

End BadInput.

(** A link-down notice from an address outside the table, then a link
    change from neighbour [A]: the first ends the loop, the second is never
    applied. *)
Lemma recv_loop_ends_on_bad_datagram_witness :
  exists e, e <> ConnectionError /\
    recvRtrTable (fun _ => None) (fun _ => Some 3)
      [Datagram "#" ("10.0.0.9", 20000); Datagram "*3" addrA] sample_router
    = (Exc e, sample_router, []).
Proof.
  apply (recv_loop_ends_on_bad_datagram (fun _ => None) (fun _ => Some 3)
           sample_router "#"%char EmptyString ("10.0.0.9", 20000)
           [Datagram "*3" addrA]).
  right. reflexivity.
Defined.

(** * Further properties of the code *)

(** ** [Router.__init__] *)

Lemma fold_dset_get {V W : Type} (nb : dict string V) (f : string -> V -> W)
    (dests : list string) : forall (acc : dict string W) (d : string),
  dget d (fold_left (fun acc k => match dget k nb with
                                  | Some n => dset k (f k n) acc
                                  | None => acc
                                  end) dests acc) =
  if in_dec string_dec d dests
  then match dget d nb with
       | Some n => Some (f d n)
       | None => dget d acc
       end
  else dget d acc.
Proof.
  induction dests as [|k dests IH]; intros acc d; [reflexivity|].
  cbn [fold_left]. rewrite IH.
  destruct (string_dec k d) as [->|N].
  - destruct (in_dec string_dec d (d :: dests)) as [_|N']; [|exfalso; apply N'; now left].
    destruct (dget d nb) as [n|] eqn:G.
    + rewrite dget_dset_eq. now destruct (in_dec string_dec d dests).
    + now destruct (in_dec string_dec d dests).
  - assert (E : dget d (match dget k nb with
                        | Some n => dset k (f k n) acc
                        | None => acc
                        end) = dget d acc).
    { destruct (dget k nb); [now apply dget_dset_neq|reflexivity]. }
    rewrite E.
    destruct (in_dec string_dec d dests) as [I|I],
             (in_dec string_dec d (k :: dests)) as [I'|I']; try reflexivity.
    + exfalso; apply I'; now right.
    + destruct I' as [E'|I']; [congruence|contradiction].
Qed.

(** X1. A new router routes to each neighbour it was given directly, at
    the cost of the link, and to nobody else; its link costs are those of
    the neighbours; it has no snapshot yet and poison reverse is on. *)
Theorem init_routes_to_neighbours ra nb a2n maxHop s0 :
  init ra nb a2n maxHop = Val s0 ->
  (forall d, dget d (rtrTable s0)
             = option_map (fun n => mkEntry d (nb_cost n)) (dget d nb)) /\
  (forall d, dget d (neighCost s0) = option_map nb_cost (dget d nb)) /\
  neighbor s0 = nb /\ dget ra a2n = Some (name s0) /\
  rtrTable_history s0 = None /\ PoisonReverse s0 = true.
Proof.
  unfold init. destruct (dget ra a2n) as [nm|] eqn:G; [|discriminate].
  intros E. injection E as <-. cbn.
  split; [|split; [|auto]].
  - intros d. unfold init_rtrTable.
    rewrite (fold_dset_get nb (fun k n => mkEntry k (nb_cost n))).
    destruct (in_dec string_dec d (keys nb)) as [I|N].
    + destruct (dget d nb); reflexivity.
    + apply dget_None_keys in N. now rewrite N.
  - intros d. unfold init_neighCost.
    rewrite (fold_dset_get nb (fun k n => nb_cost n)).
    destruct (in_dec string_dec d (keys nb)) as [I|N].
    + destruct (dget d nb); reflexivity.
    + apply dget_None_keys in N. now rewrite N.
Qed.

Lemma init_routes_to_neighbours_witness :
  dget "B" (rtrTable sample_router) = Some (mkEntry "B" 5) /\
  dget "C" (rtrTable sample_router) = None /\
  dget "B" (neighCost sample_router) = Some 5.
Proof.
  destruct (init_routes_to_neighbours addrE sample_neighbor addr2rName_global
              15 sample_router eq_refl) as (Ht & Hc & _).
  split; [exact (Ht "B")|]. split; [exact (Ht "C")|exact (Hc "B")].
Defined.

Lemma fold_rName2addr_sound (a2n : dict (string * Z) string) (ks : list (string * Z)) :
  forall acc : dict string (string * Z),
  (forall n a, dget n acc = Some a -> dget a a2n = Some n) ->
  forall n a,
  dget n (fold_left (fun acc a => match dget a a2n with
                                  | Some n => dset n a acc
                                  | None => acc
                                  end) ks acc) = Some a ->
  dget a a2n = Some n.
Proof.
  induction ks as [|k ks IH]; intros acc Hacc n a; [apply Hacc|].
  cbn [fold_left]. apply IH. intros n' a' G.
  destruct (dget k a2n) as [m|] eqn:Gk; [|now apply Hacc].
  destruct (string_dec m n') as [->|N].
  - rewrite dget_dset_eq in G. injection G as <-. exact Gk.
  - rewrite dget_dset_neq in G by assumption. now apply Hacc.
Qed.

Lemma fold_rName2addr_complete (a2n : dict (string * Z) string) n a :
  dget a a2n = Some n ->
  (forall a', dget a' a2n = Some n -> a' = a) ->
  forall ks (acc : dict string (string * Z)),
  dget n (fold_left (fun acc a => match dget a a2n with
                                  | Some n => dset n a acc
                                  | None => acc
                                  end) ks acc) =
  if in_dec eq_dec a ks then Some a else dget n acc.
Proof.
  intros Ga Inj. induction ks as [|k ks IH]; intros acc; [reflexivity|].
  cbn [fold_left]. rewrite IH.
  destruct (eq_dec k a) as [->|N].
  - rewrite Ga, dget_dset_eq.
    destruct (in_dec eq_dec a (a :: ks)) as [_|N']; [|exfalso; apply N'; now left].
    now destruct (in_dec eq_dec a ks).
  - assert (E : dget n (match dget k a2n with
                        | Some n0 => dset n0 k acc
                        | None => acc
                        end) = dget n acc).
    { destruct (dget k a2n) as [m|] eqn:Gk; [|reflexivity].
      apply dget_dset_neq. intros ->. apply N. now apply Inj. }
    rewrite E.
    destruct (in_dec eq_dec a ks) as [I|I],
             (in_dec eq_dec a (k :: ks)) as [I'|I']; try reflexivity.
    + exfalso; apply I'; now right.
    + destruct I' as [E'|I']; [congruence|contradiction].
Qed.

(** X2. The reverse table built by [__init__] only holds pairs of the
    address table, and it holds the pair of every name that has a single
    address: looking a name up gives back the address it belongs to. *)
Theorem rName2addr_inverts_addr2rName ra nb a2n maxHop s0 :
  init ra nb a2n maxHop = Val s0 ->
  (forall n a, dget n (rName2addr s0) = Some a -> dget a a2n = Some n) /\
  (forall a n, dget a a2n = Some n ->
     (forall a', dget a' a2n = Some n -> a' = a) ->
     dget n (rName2addr s0) = Some a).
Proof.
  unfold init. destruct (dget ra a2n) as [nm|]; [|discriminate].
  intros E. injection E as <-. cbn [rName2addr]. unfold init_rName2addr. split.
  - intros n a. apply fold_rName2addr_sound. intros n' a' G. discriminate.
  - intros a n Ga Inj.
    rewrite (fold_rName2addr_complete a2n n a Ga Inj).
    destruct (in_dec eq_dec a (keys a2n)) as [_|N]; [reflexivity|].
    exfalso. apply N. exact (dget_Some_keys a n a2n Ga).
Qed.

Lemma rName2addr_inverts_addr2rName_witness :
  dget "C" (rName2addr sample_router) = Some addrC.
Proof.
  destruct (rName2addr_inverts_addr2rName addrE sample_neighbor
              addr2rName_global 15 sample_router eq_refl) as (_ & H).
  apply H; [reflexivity|].
  intros a' G. unfold addr2rName_global in G. cbn [dget] in G.
  destruct (eq_dec a' addrA); [discriminate|].
  destruct (eq_dec a' addrB); [discriminate|].
  destruct (eq_dec a' addrC); [assumption|].
  destruct (eq_dec a' addrD); [discriminate|].
  destruct (eq_dec a' addrE); discriminate.
Defined.

(** ** The neighbours along a run *)

Lemma In_keys_contains {K V : Type} `{EqDec K} (k : K) (d : dict K V) :
  In k (keys d) <-> contains k d = true.
Proof.
  unfold contains. destruct (dget k d) as [v|] eqn:G.
  - split; [reflexivity|]. intros _. exact (dget_Some_keys k v d G).
  - apply dget_None_keys in G. split; [contradiction|discriminate].
Qed.

Lemma In_keys_dset {K V : Type} `{EqDec K} (k k' : K) (v : V) (d : dict K V) :
  In k' (keys (dset k v d)) <-> k' = k \/ In k' (keys d).
Proof.
  rewrite !In_keys_contains. unfold contains.
  destruct (eq_dec k k') as [->|N].
  - rewrite dget_dset_eq. tauto.
  - rewrite dget_dset_neq by assumption.
    split; [tauto|]. intros [E|I]; [congruence|exact I].
Qed.

Lemma In_keys_dpop {K V : Type} `{EqDec K} (k k' : K) (d : dict K V) :
  In k' (keys (dpop k d)) <-> k' <> k /\ In k' (keys d).
Proof.
  rewrite !In_keys_contains. unfold contains.
  destruct (eq_dec k k') as [->|N].
  - rewrite dget_dpop_eq. split; [discriminate|]. intros [N _]. congruence.
  - rewrite dget_dpop_neq by assumption.
    split; [intros I; split; [congruence|exact I]|tauto].
Qed.

(** What [__showrt] never touches. *)
Lemma showrt_frame s :
  let s' := state_of (showrt s) in
  neighbor s' = neighbor s /\ neighCost s' = neighCost s /\
  addr2rName s' = addr2rName s /\ rName2addr s' = rName2addr s /\
  name s' = name s /\ MaxHop s' = MaxHop s /\
  PoisonReverse s' = PoisonReverse s /\
  keys (rtrTable s') = keys (rtrTable s).
Proof.
  destruct (table_changed s) eqn:C.
  - rewrite (showrt_changed s C).
    cbn [state_of fst snd neighbor neighCost addr2rName rName2addr name
         MaxHop PoisonReverse rtrTable].
    rewrite clamped_keys. auto 10.
  - destruct (Z.eq_dec (convergedPrintTimes s) 0) as [Z0|Z0].
    + rewrite (showrt_converged s C Z0).
      cbn [state_of fst snd neighbor neighCost addr2rName rName2addr name
           MaxHop PoisonReverse rtrTable].
      rewrite clamped_keys. auto 10.
    + rewrite (showrt_silent s C Z0). cbn. auto 10.
Qed.

(** With the two neighbour dictionaries in agreement, [linkDown] either
    goes through or raises before it has changed anything. *)
Lemma linkDown_whole s a needSend :
  (forall n, dget n (neighCost s) = option_map nb_cost (dget n (neighbor s))) ->
  (exists P, dget a (addr2rName s) = Some P /\
     contains P (neighbor s) = true /\ contains P (neighCost s) = true) \/
  ((forall P, dget a (addr2rName s) = Some P -> contains P (neighbor s) = false) /\
   linkDown a needSend s = (Exc KeyError, s, [])).
Proof.
  intros Agree. destruct (dget a (addr2rName s)) as [P|] eqn:Ha.
  - destruct (contains P (neighbor s)) eqn:Hn.
    + left. exists P. split; [reflexivity|]. split; [exact Hn|].
      unfold contains in *. rewrite Agree.
      destruct (dget P (neighbor s)); [reflexivity|discriminate].
    + right. split; [intros P' E; congruence|].
      unfold linkDown, pop_neighbor. unfold_monad.
      rewrite Ha. cbn. rewrite Hn. reflexivity.
  - right. split; [discriminate|]. now apply linkDown_unknown.
Qed.

Lemma exec_neighbours_inv o s :
  neighbours_inv s -> neighbours_inv (state_of (exec o s)).
Proof.
  intros (Agree & Has). destruct o as [| |a v|a dist ns|a ns|b]; cbn [exec].
  - destruct (showrt_frame s) as (E1 & E2 & _ & _ & _ & _ & _ & E3).
    unfold neighbours_inv. rewrite E1, E2, E3. split; assumption.
  - rewrite sendRtrTable_state. split; assumption.
  - apply updatertrTable_inv; [split; assumption|].
    intros s1 From c dest (A1 & H1) _. unfold neighbours_inv.
    cbn [set_rtrTable rtrTable neighbor neighCost]. split; [exact A1|].
    intros n I.
    destruct (relax_table_keys (name s1) From c (MaxHop s1) v (rtrTable s1) dest)
      as [rest E].
    rewrite E. apply in_or_app. left. now apply H1.
  - destruct (dget a (addr2rName s)) as [P|] eqn:Ha.
    + rewrite (linkChange_run s a P dist ns Ha). unfold neighbours_inv.
      cbn [state_of fst snd rtrTable neighbor neighCost]. split.
      * intros n. destruct (string_dec P n) as [->|N].
        -- now rewrite !dget_dset_eq.
        -- rewrite !dget_dset_neq by assumption. apply Agree.
      * intros n I. apply In_keys_dset. apply In_keys_dset in I.
        destruct I as [E|I]; [now left|right; now apply Has].
    + rewrite (linkChange_unknown s a dist ns Ha). split; assumption.
  - destruct (linkDown_whole s a ns Agree) as [(P & Ha & Hn & Hc)|(_ & E)].
    + rewrite (linkDown_run s a P ns Ha Hn Hc). unfold neighbours_inv.
      cbn [state_of fst snd rtrTable neighbor neighCost]. split.
      * intros n. destruct (string_dec P n) as [->|N].
        -- now rewrite !dget_dpop_eq.
        -- rewrite !dget_dpop_neq by assumption. apply Agree.
      * intros n I. apply In_keys_dpop in I. destruct I as [_ I].
        apply In_keys_dset. right. now apply Has.
    + rewrite E. split; assumption.
  - split; assumption.
Qed.

Lemma run_neighbours_inv ops : forall s,
  neighbours_inv s -> neighbours_inv (run ops s).
Proof.
  induction ops as [|o ops IH]; intros s Hs; [exact Hs|].
  cbn [run fold_left]. apply IH. now apply exec_neighbours_inv.
Qed.

(** X3. Along every run of a router, the link cost kept for a neighbour
    is the cost recorded with the neighbour, for exactly the current
    neighbours, and every current neighbour has a routing entry. *)
Theorem neighbours_stay_consistent ra nb a2n maxHop s0 ops :
  init ra nb a2n maxHop = Val s0 ->
  let s := run ops s0 in
  (forall n, dget n (neighCost s) = option_map nb_cost (dget n (neighbor s))) /\
  (forall n, In n (keys (neighbor s)) -> In n (keys (rtrTable s))).
Proof.
  intros Hi s. apply run_neighbours_inv.
  destruct (init_routes_to_neighbours ra nb a2n maxHop s0 Hi)
    as (Ht & Hc & En & _).
  split.
  - intros n. rewrite En. apply Hc.
  - intros n I. rewrite En in I. destruct (keys_dget n nb I) as [x G].
    apply (dget_Some_keys n (mkEntry n (nb_cost x))). rewrite Ht, G. reflexivity.
Qed.

Lemma neighbours_stay_consistent_witness :
  let s := run [LinkChange addrC 4 true; LinkDown addrA false;
                UpdatertrTable addrB [("D", mkEntry "D" 1)]] sample_router in
  dget "C" (neighCost s) = option_map nb_cost (dget "C" (neighbor s)) /\
  dget "A" (neighCost s) = option_map nb_cost (dget "A" (neighbor s)).
Proof.
  destruct (neighbours_stay_consistent addrE sample_neighbor addr2rName_global
              15 sample_router
              [LinkChange addrC 4 true; LinkDown addrA false;
               UpdatertrTable addrB [("D", mkEntry "D" 1)]] eq_refl) as (H & _).
  split; [exact (H "C")|exact (H "A")].
Defined.

(** X4. Along every run, [linkDown] is all or nothing: it goes through
    exactly when the address names a current neighbour, and otherwise it
    raises [KeyError] with the router unchanged and nothing sent. *)
Theorem linkDown_all_or_nothing ra nb a2n maxHop s0 ops a needSend :
  init ra nb a2n maxHop = Val s0 ->
  let s := run ops s0 in
  (result_of (linkDown a needSend s) = Val tt <->
   exists P, dget a (addr2rName s) = Some P /\ In P (keys (neighbor s))) /\
  (result_of (linkDown a needSend s) <> Val tt ->
   linkDown a needSend s = (Exc KeyError, s, [])).
Proof.
  intros Hi s.
  destruct (neighbours_stay_consistent ra nb a2n maxHop s0 ops Hi) as (Agree & _).
  fold s in Agree.
  destruct (linkDown_whole s a needSend Agree) as [(P & Ha & Hn & Hc)|(Hno & E)].
  - rewrite (linkDown_run s a P needSend Ha Hn Hc). cbn [result_of fst].
    split; [|congruence]. split; [|reflexivity].
    intros _. exists P. split; [exact Ha|]. now apply In_keys_contains.
  - rewrite E. cbn [result_of fst]. split; [|reflexivity].
    split; [discriminate|].
    intros (P & Ha & I). apply In_keys_contains in I.
    rewrite (Hno P Ha) in I. discriminate.
Qed.

Lemma linkDown_all_or_nothing_witness :
  linkDown addrC true sample_router = (Exc KeyError, sample_router, []).
Proof.
  destruct (linkDown_all_or_nothing addrE sample_neighbor addr2rName_global 15
              sample_router [] addrC true eq_refl) as (_ & H).
  apply H. discriminate.
Defined.

(** ** The report, tick after tick *)

Lemma clamped_fixed maxHop (t : RtrTable) :
  NoDup (keys t) ->
  (forall d e, dget d t = Some e -> cost e <= maxHop + 1) ->
  clamped maxHop t = t.
Proof.
  intros ND Hc. symmetry. apply same_keys_incl_eq.
  - now rewrite clamped_keys.
  - exact ND.
  - intros [d e] Hx. pose proof (In_dget d e t ND Hx) as G.
    apply dget_In. rewrite clamped_get, G. cbn [option_map].
    f_equal. apply clamp_entry_fixed. exact (Hc d e G).
Qed.

Lemma clamped_idem maxHop (t : RtrTable) :
  NoDup (keys t) -> clamped maxHop (clamped maxHop t) = clamped maxHop t.
Proof.
  intros ND. apply clamped_fixed.
  - now rewrite clamped_keys.
  - intros d e. apply clamped_le.
Qed.

Lemma showrt_silent_snapshot s :
  rtrTable_history s = Some (rtrTable s) ->
  convergedPrintTimes s <> 0 ->
  showrt s = (Val tt, s, []).
Proof.
  intros Eh Z0. apply showrt_silent; [|exact Z0]. now apply table_changed_false.
Qed.

(** X5. Along every run, a report leaves the snapshot equal to the table.
    The report after it prints the converged notice if the first one had
    found a change and nothing otherwise, and leaves table and snapshot as
    they are; a third report prints nothing and changes nothing. *)
Theorem report_settles ra nb a2n maxHop s0 ops :
  init ra nb a2n maxHop = Val s0 ->
  let s := run ops s0 in
  let s1 := state_of (showrt s) in
  let s2 := state_of (showrt s1) in
  rtrTable_history s1 = Some (rtrTable s1) /\
  output_of (showrt s1) =
    (if table_changed s
     then [PrintLine "The network has converged:";
           PrintTable (rows_of (MaxHop s1) (rtrTable s1))]
     else []) /\
  rtrTable s2 = rtrTable s1 /\
  rtrTable_history s2 = rtrTable_history s1 /\
  showrt s2 = (Val tt, s2, []).
Proof.
  intros Hi s s1 s2.
  pose proof (reachable_snapshot_inv ra nb a2n maxHop s0 ops Hi) as (ND & Hh).
  fold s in ND, Hh. subst s2 s1.
  destruct (table_changed s) eqn:C.
  - rewrite (showrt_changed s C). cbn [state_of fst snd].
    set (t := clamped (MaxHop s) (rtrTable s)).
    set (s1 := mkRouter _ _ _ _ _ _ t _ (Some t) 0 _).
    assert (C1 : table_changed s1 = false) by (now apply table_changed_false).
    rewrite (showrt_converged s1 C1 eq_refl).
    cbn [state_of fst snd output_of rtrTable rtrTable_history MaxHop
         addr neighbor addr2rName name rName2addr neighCost PoisonReverse s1].
    assert (Ei : clamped (MaxHop s) t = t) by (now apply clamped_idem).
    rewrite Ei. repeat split.
    apply showrt_silent_snapshot; [reflexivity|discriminate].
  - pose proof C as Eh. apply table_changed_false in Eh.
    rewrite Eh in Hh. destruct Hh as (_ & Hc).
    destruct (Z.eq_dec (convergedPrintTimes s) 0) as [Z0|Z0].
    + rewrite (showrt_converged s C Z0). cbn [state_of fst snd].
      rewrite (clamped_fixed (MaxHop s) (rtrTable s) ND Hc), Eh.
      set (s1 := mkRouter _ _ _ _ _ _ (rtrTable s) _ (Some (rtrTable s)) 1 _).
      assert (S1 : showrt s1 = (Val tt, s1, [])).
      { apply showrt_silent_snapshot; [reflexivity|discriminate]. }
      rewrite S1. cbn [state_of fst snd output_of]. rewrite S1. auto.
    + rewrite (showrt_silent s C Z0). cbn [state_of fst snd].
      rewrite (showrt_silent s C Z0). cbn [state_of fst snd output_of].
      repeat split; try assumption. now apply showrt_silent.
Qed.

Lemma report_settles_witness :
  let s := run [UpdatertrTable addrA [("C", mkEntry "C" 3)]] sample_router in
  let s1 := state_of (showrt s) in
  output_of (showrt s1) =
    [PrintLine "The network has converged:";
     PrintTable [[CStr "A"; CStr "A"; CInt 2]; [CStr "B"; CStr "B"; CInt 5];
                 [CStr "C"; CStr "A"; CInt 5]]] /\
  output_of (showrt (state_of (showrt s1))) = [].
Proof.
  destruct (report_settles addrE sample_neighbor addr2rName_global 15
              sample_router [UpdatertrTable addrA [("C", mkEntry "C" 3)]]
              eq_refl) as (_ & Ho & _ & _ & E3).
  split; [exact Ho|]. now rewrite E3.
Defined.

(** The rows of the printed table, read off the table before the clamp. *)
Lemma report_rows_snd maxHop (t : RtrTable) dests : forall t' : RtrTable,
  (forall d, dget d t' = dget d t \/
             dget d t' = option_map (clamp_entry maxHop) (dget d t)) ->
  snd (report_rows maxHop dests t') =
  map (fun d => match dget d t with
                | Some e => printed_row maxHop d e
                | None => []
                end) dests.
Proof.
  induction dests as [|k dests IH]; intros t' Rel; [reflexivity|].
  cbn [report_rows map].
  assert (Ek : dget k (clamp_cost maxHop k t')
               = option_map (clamp_entry maxHop) (dget k t)).
  { rewrite clamp_cost_same. destruct (Rel k) as [E|E]; rewrite E; [reflexivity|].
    destruct (dget k t); cbn [option_map]; [|reflexivity].
    now rewrite clamp_entry_idem. }
  assert (Rel' : forall d, dget d (clamp_cost maxHop k t') = dget d t \/
            dget d (clamp_cost maxHop k t')
              = option_map (clamp_entry maxHop) (dget d t)).
  { intros d. destruct (string_dec k d) as [<-|N]; [right; exact Ek|].
    rewrite clamp_cost_other by assumption. apply Rel. }
  specialize (IH _ Rel').
  destruct (report_rows maxHop dests (clamp_cost maxHop k t')) as [t2 rows].
  cbn [snd] in *. rewrite IH. f_equal.
  unfold row. rewrite Ek. destruct (dget k t) as [e|]; cbn [option_map];
    [|reflexivity].
  unfold printed_row, clamp_entry.
  destruct (Z.gtb_spec (cost e) maxHop) as [G|G]; cbn [cost nextHop].
  - destruct (Z.leb_spec (maxHop + 1) maxHop); [lia|reflexivity].
  - destruct (Z.leb_spec (cost e) maxHop); [reflexivity|lia].
Qed.

Lemma map_keys_items {W : Type} (f : string -> Entry -> W) (w : W) :
  forall t : RtrTable, NoDup (keys t) ->
  map (fun d => match dget d t with Some e => f d e | None => w end) (keys t)
  = map (fun x => f (fst x) (snd x)) t.
Proof.
  induction t as [|[k e] t IH]; intros ND; [reflexivity|].
  cbn [keys map fst snd] in *. inversion ND as [|? ? N0 ND']; subst.
  cbn [dget]. destruct (eq_dec k k) as [_|N]; [|congruence]. f_equal.
  rewrite <- (IH ND'). apply map_ext_in. intros d I.
  destruct (eq_dec d k) as [->|N]; [contradiction|reflexivity].
Qed.

Lemma rows_of_items maxHop (t : RtrTable) :
  NoDup (keys t) ->
  rows_of maxHop t = map (fun x => printed_row maxHop (fst x) (snd x)) t.
Proof.
  intros ND. unfold rows_of.
  rewrite (report_rows_snd maxHop t (keys t) t) by (intros d; now left).
  now apply map_keys_items.
Qed.

(** X6. Along every run, what a report prints is decided by the change
    test and the counter; when it prints, the table has one row per
    destination in the order of the table, and a destination whose cost is
    above [MaxHop] is shown with a blank next hop and [inf]. *)
Theorem report_prints_table ra nb a2n maxHop s0 ops :
  init ra nb a2n maxHop = Val s0 ->
  let s := run ops s0 in
  let rows := map (fun x => printed_row (MaxHop s) (fst x) (snd x)) (rtrTable s) in
  output_of (showrt s) =
    if table_changed s
    then [PrintLine "Distance vector list is:"; PrintTable rows]
    else if convergedPrintTimes s =? 0
    then [PrintLine "The network has converged:"; PrintTable rows]
    else [].
Proof.
  intros Hi s rows. subst rows.
  pose proof (reachable_snapshot_inv ra nb a2n maxHop s0 ops Hi) as (ND & _).
  fold s in ND.
  destruct (table_changed s) eqn:C.
  - rewrite (showrt_changed s C). cbn [output_of snd].
    now rewrite rows_of_items.
  - destruct (Z.eqb_spec (convergedPrintTimes s) 0) as [Z0|Z0].
    + rewrite (showrt_converged s C Z0). cbn [output_of snd].
      now rewrite rows_of_items.
    + now rewrite (showrt_silent s C Z0).
Qed.

Lemma report_prints_table_witness :
  output_of (showrt (run [LinkChange addrC 17 true] sample_router)) =
  [PrintLine "Distance vector list is:";
   PrintTable [[CStr "A"; CStr "A"; CInt 2]; [CStr "B"; CStr "B"; CInt 5];
               [CStr "C"; CStr " "; CStr "inf"]]].
Proof.
  exact (report_prints_table addrE sample_neighbor addr2rName_global 15
           sample_router [LinkChange addrC 17 true] eq_refl).
Defined.

(** ** The broadcast of [__sendRtrTable] *)

Lemma for_each_pure {A : Type} (body : A -> M unit) (out : A -> list event) s :
  forall l,
  (forall x, In x l -> body x s = (Val tt, s, out x)) ->
  for_each l body s = (Val tt, s, flat_map out l).
Proof.
  induction l as [|x l IH]; intros Hb; [reflexivity|].
  cbn [for_each flat_map]. unfold bind.
  rewrite (Hb x (or_introl eq_refl)).
  rewrite IH by (intros y I; apply Hb; now right). reflexivity.
Qed.

Lemma for_each_stops {A : Type} (body : A -> M unit) (out : A -> list event)
    s e x post : forall pre,
  (forall y, In y pre -> body y s = (Val tt, s, out y)) ->
  body x s = (Exc e, s, []) ->
  for_each (pre ++ x :: post) body s = (Exc e, s, flat_map out pre).
Proof.
  induction pre as [|y pre IH]; intros Hb Hx.
  - cbn [app for_each flat_map]. unfold bind. now rewrite Hx.
  - cbn [app for_each flat_map]. unfold bind.
    rewrite (Hb y (or_introl eq_refl)).
    rewrite IH; [reflexivity| |exact Hx].
    intros z I. apply Hb. now right.
Qed.

Lemma send_round s n :
  (let data := Json (vectorFor s n) in
   a <- lookup (rName2addr s) n ;; emit (SendTo data a)) s =
  match dget n (rName2addr s) with
  | Some a => (Val tt, s, datagram_for s n)
  | None => (Exc KeyError, s, [])
  end.
Proof.
  unfold datagram_for. unfold_monad. destruct (dget n (rName2addr s)); reflexivity.
Qed.

Lemma datagrams_length s : forall l,
  (forall n, In n l -> In n (keys (rName2addr s))) ->
  List.length (flat_map (datagram_for s) l) = List.length l.
Proof.
  induction l as [|n l IH]; intros Hres; [reflexivity|].
  cbn [flat_map]. rewrite length_app.
  rewrite IH by (intros m I; apply Hres; now right).
  unfold datagram_for.
  destruct (keys_dget n (rName2addr s) (Hres n (or_introl eq_refl))) as [a G].
  rewrite G. reflexivity.
Qed.

(** X7. The broadcast sends, in the order of the neighbour dictionary, one
    datagram per neighbour, the vector built for that neighbour to the
    address of its name, and leaves the router as it is.  A neighbour whose
    name has no address stops it with [KeyError]: the neighbours before it
    have been served, the ones after it get nothing. *)
Theorem broadcast_serves_neighbours_in_order s :
  ((forall n, In n (keys (neighbor s)) -> In n (keys (rName2addr s))) ->
   sendRtrTable s
   = (Val tt, s, flat_map (datagram_for s) (keys (neighbor s))) /\
   List.length (output_of (sendRtrTable s)) = List.length (keys (neighbor s))) /\
  (forall pre n post,
     keys (neighbor s) = (pre ++ n :: post)%list ->
     (forall m, In m pre -> In m (keys (rName2addr s))) ->
     dget n (rName2addr s) = None ->
     sendRtrTable s = (Exc KeyError, s, flat_map (datagram_for s) pre)).
Proof.
  split.
  - intros Hres.
    assert (E : sendRtrTable s
                = (Val tt, s, flat_map (datagram_for s) (keys (neighbor s)))).
    { unfold sendRtrTable. unfold bind at 1. unfold get at 1.
      rewrite (for_each_pure _ (datagram_for s) s (keys (neighbor s)));
        [reflexivity|].
      intros n I. rewrite send_round.
      destruct (keys_dget n (rName2addr s) (Hres n I)) as [a G]. now rewrite G. }
    split; [exact E|]. rewrite E. cbn [output_of snd].
    now apply datagrams_length.
  - intros pre n post Ek Hres Hn.
    unfold sendRtrTable. unfold bind at 1. unfold get at 1. rewrite Ek.
    rewrite (for_each_stops _ (datagram_for s) s KeyError n post pre);
      [reflexivity| |].
    + intros m I. rewrite send_round.
      destruct (keys_dget m (rName2addr s) (Hres m I)) as [a G]. now rewrite G.
    + rewrite send_round. now rewrite Hn.
Qed.

Lemma broadcast_serves_neighbours_in_order_witness :
  sendRtrTable learned_router =
  (Val tt, learned_router,
   [SendTo (Json [("A", mkEntry "A" 2); ("B", mkEntry "B" 5);
                  ("C", mkEntry "A" 16); ("D", mkEntry "A" 16)]) addrA;
    SendTo (Json [("A", mkEntry "A" 2); ("B", mkEntry "B" 5);
                  ("C", mkEntry "A" 5); ("D", mkEntry "A" 8)]) addrB]).
Proof.
  destruct (broadcast_serves_neighbours_in_order learned_router) as (H & _).
  apply H. intros n I. vm_compute in I.
  destruct I as [<-|[<-|[]]]; vm_compute; auto.
Defined.

(** ** More on the application of a vector *)

(** X8. A destination the router has no route to, other than itself, is
    learned from the vector: next hop the sender, cost the sender's link
    cost plus the advertised cost, capped at [MaxHop + 1]. *)
Theorem new_destination_is_learned s a F c v d adv :
  dget a (addr2rName s) = Some F ->
  dget F (neighCost s) = Some c ->
  dget d v = Some adv ->
  dget d (rtrTable s) = None ->
  d <> name s ->
  let r := updatertrTable a v s in
  result_of r = Val tt /\ output_of r = [] /\
  dget d (rtrTable (state_of r))
  = Some (mkEntry F (Z.min (c + cost adv) (MaxHop s + 1))).
Proof.
  intros Ha Hc Hv Hd Hn r. subst r.
  split; [now rewrite (updatertrTable_run s a F c v Ha Hc)|].
  split; [now rewrite (updatertrTable_run s a F c v Ha Hc)|].
  rewrite (updatertrTable_get s a F c v d Ha Hc).
  unfold relax_entry. rewrite Hv, Hd.
  apply String.eqb_neq in Hn. now rewrite Hn.
Qed.

Lemma new_destination_is_learned_witness :
  dget "D" (rtrTable
              (state_of (updatertrTable addrB [("D", mkEntry "D" 30)]
                                        sample_router)))
  = Some (mkEntry "B" 16).
Proof.
  apply (new_destination_is_learned sample_router addrB "B" 5
           [("D", mkEntry "D" 30)] "D" (mkEntry "D" 30));
    try reflexivity.
  discriminate.
Defined.

(** X9. However it ends, the application of a vector touches nothing but
    the routing table; there it removes no key and moves none, and it
    leaves alone every destination the vector does not name. *)
Theorem updatertrTable_frame s a v :
  let s' := state_of (updatertrTable a v s) in
  neighbor s' = neighbor s /\ neighCost s' = neighCost s /\
  rtrTable_history s' = rtrTable_history s /\
  convergedPrintTimes s' = convergedPrintTimes s /\
  PoisonReverse s' = PoisonReverse s /\
  (exists rest, keys (rtrTable s') = (keys (rtrTable s) ++ rest)%list) /\
  (forall d, dget d v = None -> dget d (rtrTable s') = dget d (rtrTable s)).
Proof.
  pose (P := fun s1 : Router =>
    neighbor s1 = neighbor s /\ neighCost s1 = neighCost s /\
    rtrTable_history s1 = rtrTable_history s /\
    convergedPrintTimes s1 = convergedPrintTimes s /\
    PoisonReverse s1 = PoisonReverse s /\
    (exists rest, keys (rtrTable s1) = (keys (rtrTable s) ++ rest)%list) /\
    (forall d, dget d v = None -> dget d (rtrTable s1) = dget d (rtrTable s))).
  change (P (state_of (updatertrTable a v s))).
  apply updatertrTable_inv.
  - unfold P. repeat split; try reflexivity.
    exists []. now rewrite app_nil_r.
  - intros s1 From c dest (E1 & E2 & E3 & E4 & E5 & (rest & Ek) & Hd) _.
    unfold P. cbn [set_rtrTable neighbor neighCost rtrTable_history
                   convergedPrintTimes PoisonReverse rtrTable].
    repeat split; try assumption.
    + destruct (relax_table_keys (name s1) From c (MaxHop s1) v (rtrTable s1) dest)
        as [r0 E0].
      exists (rest ++ r0)%list. now rewrite E0, Ek, app_assoc.
    + intros d G. rewrite <- (Hd d G).
      destruct (string_dec dest d) as [->|N].
      * rewrite relax_table_same. unfold relax_entry. now rewrite G.
      * now apply relax_table_other.
Qed.

(** X10. After a vector from [F] has been applied, every routing entry is
    either the one that was there, or goes through [F] at the cost the
    rule computes from the vector, which is at most [MaxHop + 1]. *)
Theorem applied_entries_are_capped s a F c v d e' :
  dget a (addr2rName s) = Some F ->
  dget F (neighCost s) = Some c ->
  dget d (rtrTable (state_of (updatertrTable a v s))) = Some e' ->
  dget d (rtrTable s) = Some e' \/
  (nextHop e' = F /\ cost e' <= MaxHop s + 1 /\
   exists adv, dget d v = Some adv /\
     cost e' = Z.min (c + cost adv) (MaxHop s + 1)).
Proof.
  intros Ha Hc. rewrite (updatertrTable_get s a F c v d Ha Hc).
  unfold relax_entry.
  destruct (dget d v) as [adv|]; [|now left].
  destruct (String.eqb d (name s)); [now left|].
  assert (R : forall nh, nh = F ->
    Some (mkEntry nh (Z.min (c + cost adv) (MaxHop s + 1))) = Some e' ->
    nextHop e' = F /\ cost e' <= MaxHop s + 1 /\
    exists adv0, Some adv = Some adv0 /\
      cost e' = Z.min (c + cost adv0) (MaxHop s + 1)).
  { intros nh -> E. injection E as <-. cbn [nextHop cost].
    split; [reflexivity|]. split; [lia|]. now exists adv. }
  destruct (dget d (rtrTable s)) as [e|].
  - destruct (String.eqb_spec (nextHop e) F) as [En|En].
    + intros E. right. exact (R _ En E).
    + destruct (c + cost adv <? cost e).
      * intros E. right. exact (R _ eq_refl E).
      * now left.
  - intros E. right. exact (R _ eq_refl E).
Qed.

Lemma applied_entries_are_capped_witness :
  dget "D" (rtrTable sample_router) = Some (mkEntry "B" 16) \/
  (nextHop (mkEntry "B" 16) = "B" /\ cost (mkEntry "B" 16) <= 15 + 1 /\
   exists adv, dget "D" [("D", mkEntry "D" 30)] = Some adv /\
     cost (mkEntry "B" 16) = Z.min (5 + cost adv) (15 + 1)).
Proof.
  apply (applied_entries_are_capped sample_router addrB "B" 5
           [("D", mkEntry "D" 30)] "D" (mkEntry "B" 16));
    reflexivity.
Defined.

Lemma relax_dest_no_link s From v dest :
  dget From (neighCost s) = None ->
  relax_dest From v dest s =
  if String.eqb dest (name s) then (Val tt, s, []) else (Exc KeyError, s, []).
Proof.
  intros Hc. unfold relax_dest. unfold_monad.
  destruct (String.eqb dest (name s)); [reflexivity|].
  destruct (dget dest (rtrTable s)) as [e|].
  - destruct (String.eqb (nextHop e) From); rewrite Hc; reflexivity.
  - rewrite Hc. reflexivity.
Qed.

(** X11. A vector from a listed address that is not a neighbour (no link
    cost) is refused with [KeyError] as soon as it names a destination other
    than the router itself; an empty vector, or one naming only the router,
    is accepted and changes nothing. *)
Theorem vector_from_stranger s a F v :
  dget a (addr2rName s) = Some F ->
  dget F (neighCost s) = None ->
  result_of (updatertrTable a v s) =
    (if forallb (fun d => String.eqb d (name s)) (keys v)
     then Val tt else Exc KeyError) /\
  (forallb (fun d => String.eqb d (name s)) (keys v) = true ->
   updatertrTable a v s = (Val tt, s, [])).
Proof.
  intros Ha Hc.
  assert (G : forall dests,
    for_each dests (relax_dest F v) s =
    if forallb (fun d => String.eqb d (name s)) dests
    then (Val tt, s, []) else (Exc KeyError, s, [])).
  { induction dests as [|k dests IH]; [reflexivity|].
    cbn [for_each forallb]. unfold bind.
    rewrite (relax_dest_no_link s F v k Hc).
    destruct (String.eqb k (name s)); [|reflexivity].
    rewrite IH. cbn [andb].
    destruct (forallb (fun d => String.eqb d (name s)) dests); reflexivity. }
  assert (E : updatertrTable a v s = for_each (keys v) (relax_dest F v) s).
  { unfold updatertrTable. unfold bind at 1. unfold get at 1.
    unfold bind at 1. unfold lookup at 1. rewrite Ha. unfold ret at 1.
    destruct (for_each (keys v) (relax_dest F v) s) as [[r s'] o]. reflexivity. }
  rewrite E, G. split.
  - destruct (forallb _ (keys v)); reflexivity.
  - intros ->. reflexivity.
Qed.

Lemma vector_from_stranger_witness :
  result_of (updatertrTable addrC [("E", mkEntry "E" 0); ("D", mkEntry "D" 1)]
                            sample_router) = Exc KeyError /\
  updatertrTable addrC [("E", mkEntry "E" 0)] sample_router
  = (Val tt, sample_router, []).
Proof.
  split.
  - apply (vector_from_stranger sample_router addrC "C"
             [("E", mkEntry "E" 0); ("D", mkEntry "D" 1)]); reflexivity.
  - apply (vector_from_stranger sample_router addrC "C" [("E", mkEntry "E" 0)]);
      reflexivity.
Defined.

(** X12. A vector that arrives twice does no more than once: after the
    second application every routing entry is what the first one left. *)
Theorem repeated_vector_is_harmless s a F c v :
  dget a (addr2rName s) = Some F ->
  dget F (neighCost s) = Some c ->
  let s1 := state_of (updatertrTable a v s) in
  let r2 := updatertrTable a v s1 in
  result_of r2 = Val tt /\
  forall d, dget d (rtrTable (state_of r2)) = dget d (rtrTable s1).
Proof.
  intros Ha Hc s1 r2. subst r2.
  assert (E1 : s1 = set_rtrTable
            (fold_left (relax_table (name s) F c (MaxHop s) v) (keys v) (rtrTable s)) s).
  { subst s1. now rewrite (updatertrTable_run s a F c v Ha Hc). }
  assert (Ha1 : dget a (addr2rName s1) = Some F) by (now rewrite E1).
  assert (Hc1 : dget F (neighCost s1) = Some c) by (now rewrite E1).
  split; [now rewrite (updatertrTable_run s1 a F c v Ha1 Hc1)|].
  intros d. rewrite (updatertrTable_get s1 a F c v d Ha1 Hc1).
  assert (En : name s1 = name s) by (now rewrite E1).
  assert (Em : MaxHop s1 = MaxHop s) by (now rewrite E1).
  rewrite En, Em. subst s1.
  rewrite (updatertrTable_get s a F c v d Ha Hc).
  apply relax_entry_idem.
Qed.

Lemma repeated_vector_is_harmless_witness :
  let v := [("C", mkEntry "C" 3); ("B", mkEntry "C" 1)] in
  let s1 := state_of (updatertrTable addrA v sample_router) in
  dget "B" (rtrTable (state_of (updatertrTable addrA v s1)))
  = dget "B" (rtrTable s1).
Proof.
  apply (repeated_vector_is_harmless sample_router addrA "A" 2
           [("C", mkEntry "C" 3); ("B", mkEntry "C" 1)]); reflexivity.
Defined.

(** ** The loops *)

Lemma relax_dest_output s From v dest :
  output_of (relax_dest From v dest s) = [].
Proof.
  destruct (dget From (neighCost s)) as [c|] eqn:Hc.
  - destruct (relax_dest_cases s From v dest) as [E|(c' & _ & E)].
    + unfold relax_dest in *. unfold_monad.
      destruct (String.eqb dest (name s)); [reflexivity|].
      destruct (dget dest (rtrTable s)) as [e|].
      * destruct (String.eqb (nextHop e) From); rewrite Hc; cbn;
          destruct (dget dest v); cbn; try reflexivity.
        destruct (c + cost e0 <? cost e); reflexivity.
      * rewrite Hc. cbn. destruct (dget dest v); reflexivity.
    + now rewrite E.
  - rewrite (relax_dest_no_link s From v dest Hc).
    destruct (String.eqb dest (name s)); reflexivity.
Qed.

Lemma for_each_silent {A : Type} (body : A -> M unit) :
  (forall x s, output_of (body x s) = []) ->
  forall l s, output_of (for_each l body s) = [].
Proof.
  intros Hb. induction l as [|x l IH]; intros s; [reflexivity|].
  cbn [for_each]. unfold bind. pose proof (Hb x s) as H1.
  destruct (body x s) as [[[u|e] s1] o1]; cbn [output_of snd] in *; subst o1.
  - pose proof (IH s1) as H2.
    destruct (for_each l body s1) as [[r2 s2] o2]. exact H2.
  - reflexivity.
Qed.

Lemma updatertrTable_output s a v : output_of (updatertrTable a v s) = [].
Proof.
  unfold updatertrTable. unfold bind at 1. unfold get at 1.
  unfold bind at 1. unfold lookup at 1.
  destruct (dget a (addr2rName s)) as [From|]; [|reflexivity].
  unfold ret at 1.
  pose proof (for_each_silent (relax_dest From v)
                (fun x s0 => relax_dest_output s0 From v x) (keys v) s) as H.
  destruct (for_each (keys v) (relax_dest From v) s) as [[r s'] o]. exact H.
Qed.

Lemma linkChange_quiet s a dist : output_of (linkChange a dist false s) = [].
Proof.
  destruct (dget a (addr2rName s)) as [P|] eqn:Ha.
  - now rewrite (linkChange_run s a P dist false Ha).
  - now rewrite (linkChange_unknown s a dist false Ha).
Qed.

Lemma linkDown_quiet s a : output_of (linkDown a false s) = [].
Proof.
  unfold linkDown, pop_neighbor, pop_neighCost. unfold_monad.
  destruct (dget a (addr2rName s)) as [P|]; [|reflexivity]. cbn.
  destruct (contains P (neighbor s)); [|reflexivity]. cbn.
  destruct (contains P (neighCost s)); reflexivity.
Qed.

Section LoopFacts.
Variable json_loads : string -> option RtrTable.
Variable py_int : string -> option Z.

Lemma recv_body_output x s :
  output_of (recv_body json_loads py_int x s) = [].
Proof.
  destruct x as [data a|]; [|reflexivity]. cbn [recv_body].
  destruct data as [|c rest]; [reflexivity|].
  destruct (Ascii.eqb c linkChangeFlag).
  - unfold to_int, bind. destruct (py_int rest) as [dist|]; [|reflexivity].
    unfold ret. pose proof (linkChange_quiet s a dist) as H.
    destruct (linkChange a dist false s) as [[r s'] o]. exact H.
  - destruct (Ascii.eqb c linkDownFlag); [apply linkDown_quiet|].
    destruct (json_loads (String c rest)); [apply updatertrTable_output|reflexivity].
Qed.

(** X13. The receive loop never sends: whatever arrives, all it puts out
    is the print of a connection error. *)
Theorem receive_loop_never_sends arrivals : forall s ev,
  In ev (output_of (recvRtrTable json_loads py_int arrivals s)) ->
  ev = PrintExn ConnectionError.
Proof.
  induction arrivals as [|x arrivals IH]; intros s ev; [intros []|].
  cbn [recvRtrTable]. unfold bind, catch.
  pose proof (recv_body_output x s) as H0.
  destruct (recv_body json_loads py_int x s) as [[[u|e] s1] o1];
    cbn [output_of snd] in H0; subst o1.
  - specialize (IH s1 ev).
    destruct (recvRtrTable json_loads py_int arrivals s1) as [[r2 s2] o2].
    exact IH.
  - destruct e; cbn; try (intros []).
    specialize (IH s1 ev).
    destruct (recvRtrTable json_loads py_int arrivals s1) as [[r2 s2] o2].
    cbn in *. intros [E|I]; [now symmetry|now apply IH].
Qed.

(** X14. The command loop never ends on an exception: whatever the lines
    typed, every one is handled and the loop returns. *)
Theorem command_loop_never_raises lines : forall s,
  result_of (parseUserInput py_int lines s) = Val tt.
Proof.
  induction lines as [|order lines IH]; intros s; [reflexivity|].
  cbn [parseUserInput]. unfold bind, catch.
  destruct (command py_int order s) as [[[u|e] s1] o1].
  - specialize (IH s1).
    destruct (parseUserInput py_int lines s1) as [[r2 s2] o2]. exact IH.
  - unfold emit. specialize (IH s1).
    destruct (parseUserInput py_int lines s1) as [[r2 s2] o2]. exact IH.
Qed.

(** X15. The notices of the link events are understood by the peer.  What
    [linkChange] sends, received from an address the peer knows as [P],
    makes the peer set its link to [P] and its route to [P] to the same
    cost and drop its snapshot, and send nothing back; what [linkDown]
    sends makes a peer that has [P] as neighbour forget the link and mark
    the route unreachable. *)
Theorem link_notices_reach_the_peer s1 s2 peer me P dist :
  (exists n, dget peer (addr2rName s1) = Some n) ->
  py_int (PyStr.str_int dist) = Some dist ->
  dget me (addr2rName s2) = Some P ->
  (exists data,
     output_of (linkChange peer dist true s1) = [SendTo (Text data) peer] /\
     let r := recvRtrTable json_loads py_int [Datagram data me] s2 in
     result_of r = Val tt /\ output_of r = [] /\
     dget P (neighCost (state_of r)) = Some dist /\
     dget P (rtrTable (state_of r)) = Some (mkEntry P dist) /\
     rtrTable_history (state_of r) = None) /\
  (contains P (neighbor s2) = true -> contains P (neighCost s2) = true ->
   let r := recvRtrTable json_loads py_int
              [Datagram (String linkDownFlag EmptyString) me] s2 in
   result_of r = Val tt /\ output_of r = [] /\
   dget P (neighCost (state_of r)) = None /\
   dget P (rtrTable (state_of r)) = Some (mkEntry P (MaxHop s2 + 1)) /\
   rtrTable_history (state_of r) = None).
Proof.
  intros (n & Hp) Hint Hme. split.
  - exists (String linkChangeFlag (PyStr.str_int dist)). split.
    + now rewrite (linkChange_run s1 peer n dist true Hp).
    + cbn [recvRtrTable recv_body]. rewrite Ascii.eqb_refl.
      unfold to_int. rewrite Hint. unfold catch, bind, ret.
      rewrite (linkChange_run s2 me P dist false Hme).
      cbn [result_of state_of output_of fst snd neighCost rtrTable
           rtrTable_history app].
      repeat split; apply dget_dset_eq.
  - intros Hn Hc. cbn [recvRtrTable recv_body].
    change (Ascii.eqb linkDownFlag linkChangeFlag) with false.
    rewrite Ascii.eqb_refl. cbv iota. unfold catch, bind, ret.
    rewrite (linkDown_run s2 me P false Hme Hn Hc).
    cbn [result_of state_of output_of fst snd neighCost rtrTable
         rtrTable_history app].
    repeat split; [apply dget_dpop_eq|apply dget_dset_eq].
Qed.

End LoopFacts.

Lemma command_loop_never_raises_witness :
  result_of (parseUserInput (fun _ => None)
               [["linkdown"; "10.0.0.9"; "x"]; []; ["linkchange"]; ["hello"]]
               sample_router) = Val tt.
Proof.
  exact (command_loop_never_raises (fun _ => None)
           [["linkdown"; "10.0.0.9"; "x"]; []; ["linkchange"]; ["hello"]]
           sample_router).
Defined.

Lemma link_notices_reach_the_peer_witness :
  exists data,
    output_of (linkChange addrA 7 true sample_router)
      = [SendTo (Text data) addrA] /\
    dget "E" (neighCost
                (state_of (recvRtrTable (fun _ => None) (fun _ => Some 7)
                             [Datagram data addrE] learned_router))) = Some 7.
Proof.
  destruct (link_notices_reach_the_peer (fun _ => None) (fun _ => Some 7)
              sample_router learned_router addrA addrE "E" 7) as ((data & Ho & H) & _).
  - exists "A". reflexivity.
  - reflexivity.
  - reflexivity.
  - exists data. split; [exact Ho|]. apply H.
Defined.

Lemma receive_loop_never_sends_witness :
  In (PrintExn ConnectionError)
     (output_of (recvRtrTable (fun _ => None) (fun _ => Some 3)
                   [Reset; Datagram "*3" addrA] sample_router)) /\
  PrintExn ConnectionError = PrintExn ConnectionError.
Proof.
  assert (I : In (PrintExn ConnectionError)
     (output_of (recvRtrTable (fun _ => None) (fun _ => Some 3)
                   [Reset; Datagram "*3" addrA] sample_router))).
  { left. reflexivity. }
  split; [exact I|].
  exact (receive_loop_never_sends (fun _ => None) (fun _ => Some 3)
           [Reset; Datagram "*3" addrA] sample_router _ I).
Defined.

(** ** Start-up *)

Section StartupFacts.
Variable py_int : string -> option Z.

Lemma parse_neighbor_keyed s nb i nb' :
  (forall n x, dget n nb = Some x ->
     dget (nb_addr x) addr2rName_global = Some n) ->
  parse_neighbor py_int s nb i = Val nb' ->
  forall n x, dget n nb' = Some x ->
    dget (nb_addr x) addr2rName_global = Some n.
Proof.
  intros Hnb. unfold parse_neighbor, rbind, item, int_of.
  destruct (nth_error s (i * 3)) as [ip|]; [|discriminate].
  destruct (nth_error s (i * 3 + 1)) as [p|]; [|discriminate].
  destruct (py_int p) as [port|]; [|discriminate].
  destruct (dget (ip, port) addr2rName_global) as [rName|] eqn:G; [|discriminate].
  destruct (nth_error s (i * 3 + 2)) as [d|]; [|discriminate].
  destruct (py_int d) as [dist|]; [|discriminate].
  intros E. injection E as <-. intros n x.
  destruct (string_dec rName n) as [->|N].
  - rewrite dget_dset_eq. intros E. injection E as <-. exact G.
  - rewrite dget_dset_neq by assumption. apply Hnb.
Qed.

Lemma parse_neighbors_keyed s rounds : forall nb nb',
  (forall n x, dget n nb = Some x ->
     dget (nb_addr x) addr2rName_global = Some n) ->
  parse_neighbors py_int s nb rounds = Val nb' ->
  forall n x, dget n nb' = Some x ->
    dget (nb_addr x) addr2rName_global = Some n.
Proof.
  induction rounds as [|i rounds IH]; intros nb nb' Hnb; cbn [parse_neighbors].
  - intros E. injection E as <-. exact Hnb.
  - unfold rbind.
    destruct (parse_neighbor py_int s nb i) as [nb1|] eqn:E1; [|discriminate].
    apply IH. exact (parse_neighbor_keyed s nb i nb1 Hnb E1).
Qed.

(** X16. When [parse_argv] returns, the port is the first argument read as
    an integer, and every neighbour is filed under the name the address
    table gives to its address. *)
Theorem parse_argv_files_by_name argv port nb :
  parse_argv py_int argv = Val (port, nb) ->
  (exists p rest, argv = p :: rest /\ py_int p = Some port) /\
  (forall n x, dget n nb = Some x ->
     dget (nb_addr x) addr2rName_global = Some n).
Proof.
  unfold parse_argv. destruct argv as [|p rest]; [discriminate|].
  unfold rbind at 1, int_of. destruct (py_int p) as [z|] eqn:Ep; [|discriminate].
  unfold rbind.
  destruct (parse_neighbors py_int rest [] (seq 0 (List.length rest / 3)))
    as [nb1|] eqn:E1; [|discriminate].
  intros E. injection E as <- <-. split.
  - exists p, rest. auto.
  - apply (parse_neighbors_keyed rest (seq 0 (List.length rest / 3)) [] nb1);
      [|exact E1].
    intros n x G. discriminate.
Qed.

Lemma parse_neighbor_app (args extra : list string) nb i :
  (i * 3 + 2 < List.length args)%nat ->
  parse_neighbor py_int (args ++ extra) nb i = parse_neighbor py_int args nb i.
Proof.
  intros L. unfold parse_neighbor, item.
  rewrite !nth_error_app1 by lia. reflexivity.
Qed.

Lemma parse_neighbors_app (args extra : list string) rounds : forall nb,
  (forall i, In i rounds -> (i * 3 + 2 < List.length args)%nat) ->
  parse_neighbors py_int (args ++ extra) nb rounds
  = parse_neighbors py_int args nb rounds.
Proof.
  induction rounds as [|i rounds IH]; intros nb Hr; [reflexivity|].
  cbn [parse_neighbors].
  rewrite parse_neighbor_app by (apply Hr; now left).
  unfold rbind. destruct (parse_neighbor py_int args nb i); [|reflexivity].
  apply IH. intros j I. apply Hr. now right.
Qed.

(** X17. [parse_argv] reads whole triples only: one or two arguments left
    over after the last triple change nothing. *)
Theorem parse_argv_ignores_leftover p (args extra : list string) k :
  List.length args = (3 * k)%nat ->
  (List.length extra < 3)%nat ->
  parse_argv py_int (p :: args ++ extra) = parse_argv py_int (p :: args).
Proof.
  intros La Le. unfold parse_argv.
  assert (D1 : (List.length (args ++ extra) / 3 = k)%nat).
  { rewrite length_app, La, Nat.mul_comm, Nat.div_add_l by lia.
    rewrite Nat.div_small by lia. lia. }
  assert (D2 : (List.length args / 3 = k)%nat).
  { rewrite La, Nat.mul_comm. apply Nat.div_mul. lia. }
  rewrite D1, D2.
  rewrite parse_neighbors_app; [reflexivity|].
  intros i I. apply in_seq in I. lia.
Qed.

End StartupFacts.

Lemma parse_argv_files_by_name_witness :
  dget ("192.168.126.66", 20000) addr2rName_global = Some "B".
Proof.
  destruct (parse_argv_files_by_name
              (fun x => option_map Z.of_int (NilEmpty.int_of_string x))
              ["20000"; "192.168.126.65"; "20000"; "2";
               "192.168.126.66"; "20000"; "5"]
              20000 sample_neighbor eq_refl) as (_ & H).
  exact (H "B" (mkNeighbor addrB 5) eq_refl).
Defined.

Lemma parse_argv_ignores_leftover_witness :
  parse_argv (fun x => option_map Z.of_int (NilEmpty.int_of_string x))
    ("20000" :: ["192.168.126.65"; "20000"; "2"]
             ++ ["192.168.126.66"; "20000"])
  = Val (20000, [("A", mkNeighbor addrA 2)]).
Proof.
  rewrite (parse_argv_ignores_leftover
             (fun x => option_map Z.of_int (NilEmpty.int_of_string x))
             "20000" ["192.168.126.65"; "20000"; "2"]
             ["192.168.126.66"; "20000"] 1 eq_refl).
  - reflexivity.
  - cbn. lia.
Defined.

(** ** The router that [main] starts *)








(** ** The tick: report, then broadcast *)

Lemma showrt_result s : result_of (showrt s) = Val tt.
Proof.
  destruct (table_changed s) eqn:C.
  - now rewrite (showrt_changed s C).
  - destruct (Z.eq_dec (convergedPrintTimes s) 0) as [Z0|Z0].
    + now rewrite (showrt_converged s C Z0).
    + now rewrite (showrt_silent s C Z0).
Qed.

(** Along a run, the table after a report is the clamped table. *)
Lemma showrt_table_clamped s :
  snapshot_inv s ->
  rtrTable (state_of (showrt s)) = clamped (MaxHop s) (rtrTable s).
Proof.
  intros (ND & Hh). destruct (showrt_state s) as (_ & _ & Cases).
  destruct Cases as [(_ & E & _)|[(_ & _ & E & _)|(C & _ & E)]];
    [exact E|exact E|].
  rewrite E. apply table_changed_false in C. rewrite C in Hh.
  destruct Hh as (_ & Hc). symmetry. now apply clamped_fixed.
Qed.

Lemma vectorFor_keys s target : keys (vectorFor s target) = keys (rtrTable s).
Proof.
  unfold vectorFor. destruct (PoisonReverse s); [|reflexivity].
  apply fold_poison_keys.
Qed.

Lemma send_outputs_are_vectors s ev :
  In ev (output_of (sendRtrTable s)) ->
  exists n a, ev = SendTo (Json (vectorFor s n)) a.
Proof.
  unfold sendRtrTable. unfold bind at 1. unfold get at 1.
  generalize (keys (neighbor s)) as l.
  induction l as [|n l IH].
  - intros [].
  - cbn [for_each]. unfold bind at 1. rewrite send_round.
    destruct (dget n (rName2addr s)) as [a|] eqn:G.
    + revert IH. destruct (for_each l _ s) as [[r s'] o].
      cbn [output_of snd app]. intros IH I. apply in_app_or in I.
      destruct I as [I|I]; [|now apply IH].
      unfold datagram_for in I. rewrite G in I.
      destruct I as [<-|[]]. now exists n, a.
    + intros [].
Qed.

(** X19. A tick reports before it broadcasts, so along every run no
    vector sent on a tick carries a cost above [MaxHop + 1], whatever link
    cost was entered before. *)
Theorem tick_sends_capped_costs ra nb a2n maxHop s0 ops ev v a :
  init ra nb a2n maxHop = Val s0 ->
  let s := run ops s0 in
  In ev (output_of (updateTimer s)) ->
  ev = SendTo (Json v) a ->
  all_values (fun e => cost e <= MaxHop s + 1) v.
Proof.
  intros Hi s I Ev. subst ev.
  pose proof (reachable_snapshot_inv ra nb a2n maxHop s0 ops Hi) as Inv.
  fold s in Inv.
  pose proof (showrt_table_clamped s Inv) as Et.
  destruct (showrt_frame s) as (_ & _ & _ & _ & _ & EM & _ & Ek).
  pose proof (showrt_result s) as Er.
  assert (Hout : forall e, In e (output_of (showrt s)) ->
                           e <> SendTo (Json v) a).
  { intros e Ie. destruct (showrt_state s) as (_ & _ & Cases).
    destruct Cases as [(C & _)|[(C & Z0 & _)|(C & Z0 & _)]].
    - rewrite (showrt_changed s C) in Ie.
      destruct Ie as [<-|[<-|[]]]; discriminate.
    - rewrite (showrt_converged s C Z0) in Ie.
      destruct Ie as [<-|[<-|[]]]; discriminate.
    - rewrite (showrt_silent s C Z0) in Ie. destruct Ie. }
  unfold updateTimer, bind in I.
  destruct (showrt s) as [[r1 s1] o1] eqn:S1.
  cbn [result_of state_of output_of fst snd] in *. subst r1.
  destruct (sendRtrTable s1) as [[r2 s2] o2] eqn:S2.
  cbn [output_of snd] in I. apply in_app_or in I.
  destruct I as [I|I]; [exfalso; exact (Hout _ I eq_refl)|].
  assert (I2 : In (SendTo (Json v) a) (output_of (sendRtrTable s1)))
    by (now rewrite S2).
  destruct (send_outputs_are_vectors s1 _ I2) as (n & a' & E).
  injection E as -> _.
  destruct Inv as (ND & _).
  apply all_values_of_dget.
  - rewrite vectorFor_keys, Ek. exact ND.
  - intros d e G. rewrite vectorFor_get in G.
    assert (Hle : forall e0, dget d (rtrTable s1) = Some e0 ->
                             cost e0 <= MaxHop s + 1).
    { intros e0 G0. rewrite Et in G0. exact (clamped_le _ _ _ _ G0). }
    destruct (PoisonReverse s1).
    + destruct (dget d (rtrTable s1)) as [e0|] eqn:G0; [|discriminate].
      cbn [option_map] in G. injection G as <-. unfold advertised.
      destruct (negb (String.eqb d n) && String.eqb (nextHop e0) n).
      * cbn [cost]. rewrite EM. lia.
      * now apply Hle.
    + now apply Hle.
Qed.

Lemma tick_sends_capped_costs_witness :
  In (SendTo (Json [("A", mkEntry "A" 2); ("B", mkEntry "B" 5);
                    ("C", mkEntry "C" 16)]) addrA)
     (output_of (updateTimer (run [LinkChange addrC 17 true] sample_router))) /\
  all_values (fun e => cost e <= 16)
    [("A", mkEntry "A" 2); ("B", mkEntry "B" 5); ("C", mkEntry "C" 16)].
Proof.
  assert (I : In (SendTo (Json [("A", mkEntry "A" 2); ("B", mkEntry "B" 5);
                                ("C", mkEntry "C" 16)]) addrA)
     (output_of (updateTimer (run [LinkChange addrC 17 true] sample_router)))).
  { right. right. left. reflexivity. }
  split; [exact I|].
  exact (tick_sends_capped_costs addrE sample_neighbor addr2rName_global 15
           sample_router [LinkChange addrC 17 true] _ _ addrA eq_refl I eq_refl).
Defined.

Lemma updatertrTable_frame_witness :
  let s' := state_of (updatertrTable addrA [("C", mkEntry "C" 3)] sample_router) in
  neighCost s' = neighCost sample_router /\
  dget "B" (rtrTable s') = dget "B" (rtrTable sample_router).
Proof.
  destruct (updatertrTable_frame sample_router addrA [("C", mkEntry "C" 3)])
    as (_ & E & _ & _ & _ & _ & H).
  split; [exact E|]. apply H. reflexivity.
Defined.
